(** * Hyrise execution core: equality predicate, tracer and no-op operation

    A shallow embedding of
    - [src/lib/access/expressions/pred_EqualsExpression.h]
      (class template [EqualsExpression<T>]),
    - the tracer header ([PapiTracer] and [FallbackTracer]),
    - [NoOp.cpp] ([NoOp::parse], [NoOp::executePlanOperation]),
    together with the properties of these that the specification states. *)

From Stdlib Require Import ZArith Lia.
From stdpp Require Import base option list strings gmap.

Local Open Scope Z_scope.

(** ** Calls into collaborators, recorded

    Member functions of the expression call into the table and the
    dictionary.  A computation returns its outcome together with the calls
    it made, in order, so that statements such as "one dictionary lookup" or
    "the table is not touched" are statements about that record. *)

Module Trace.

Inductive Fatal : Set :=
| NullPointer        (* [->] on an empty shared_ptr *)
| OutOfRange         (* a vector index past the end *)
| CollaboratorError  (* the table rejects the call *).

Inductive Outcome (A : Type) : Type :=
| Ok (a : A)
| Fail (f : Fatal).
Arguments Ok {A} a.
Arguments Fail {A} f.

Section WithEvent.
Context {E : Type}.

Definition M (A : Type) : Type := (Outcome A * list E)%type.

Definition ret {A} (a : A) : M A := (Ok a, []).

Definition bind {A B} (m : M A) (k : A -> M B) : M B :=
  match m with
  | (Ok a, tr) => let '(r, tr') := k a in (r, tr ++ tr')
  | (Fail f, tr) => (Fail f, tr)
  end.

Definition fail {A} (f : Fatal) : M A := (Fail f, []).

(** One call into a collaborator: the call is recorded, and [None] from
    the collaborator is its failure. *)
Definition call {A} (e : E) (r : option A) : M A :=
  match r with
  | Some a => (Ok a, [e])
  | None => (Fail CollaboratorError, [e])
  end.

(** [p->...] on a shared_ptr [p]. *)
Definition deref {A} (p : option A) : M A :=
  match p with
  | Some a => ret a
  | None => fail NullPointer
  end.

Definition outcome {A} (m : M A) : Outcome A := fst m.
Definition calls {A} (m : M A) : list E := snd m.
End WithEvent.
Arguments M : clear implicits.

Declare Scope trace_scope.
Delimit Scope trace_scope with trace.
Notation "'let*' x := m 'in' k" := (bind m (fun x => k))
  (at level 10, x name, m at level 100, k at level 200) : trace_scope.

End Trace.
Import Trace.
Local Open Scope trace_scope.

(** ** The expression framework *)

Module Expressions.

(** [value_id_t] is declared in [helper/types.h], which is outside the files
    embedded here.  Its width is a parameter: [value_id_t] is an unsigned
    integer of [value_id_bits] bits. *)
Class helper_types : Type := { value_id_bits : Z }.

(** [pred_common.h] is outside them as well.  What the spec leaves open
    about it is a parameter: [direct_input] is the input slot that an
    expression built from a direct table handle carries. *)
Class pred_common : Type := { direct_input : nat }.

Section WithValueType.

(** The template parameter [T] of [EqualsExpression<T>]; values of a
    column are compared with [==]. *)
Context {T : Type} `{EqDecision T} `{helper_types} `{pred_common}.

Definition value_id_t : Type := Z.
Definition field_t : Type := nat.
Definition field_name_t : Type := string.

(** [std::numeric_limits<value_id_t>::max()] *)
Definition value_id_max : value_id_t := 2 ^ value_id_bits - 1.

(** Conversion of a size to [value_id_t]. *)
Definition to_value_id (n : nat) : value_id_t := Z.of_nat n mod 2 ^ value_id_bits.

(** Modelled from the spec: the class [ValueId] of [helper/types.h] is
    missing.  The spec describes a ValueId as "an opaque, fixed-width,
    unsigned integer identifying a value's position within a specific
    column's dictionary"; the source reads and writes its member
    [valueId].  Two ValueIds are equal when these integers are. *)
Record ValueId : Type := mkValueId { valueId : value_id_t }.

Definition ValueId_eqb (a b : ValueId) : bool := valueId a =? valueId b.

(** Modelled from the spec: [storage::BaseDictionary<T>] is missing.  The
    spec gives its lookup contract: "given a typed value, return its
    ValueId or a sentinel not found", the ValueId being the position of
    the value in the dictionary and the sentinel "the maximum
    representable value". *)
Record BaseDictionary : Type := mkDictionary { dict_values : list T }.

(** Modelled from the spec: the position of the first entry equal to [v]. *)
Fixpoint position (v : T) (l : list T) : option nat :=
  match l with
  | [] => None
  | x :: l' => if decide (x = v) then Some 0%nat else S <$> position v l'
  end.

(** Modelled from the spec: [findValueIdForValue(value) -> ValueId]
    ("sentinel on miss"). *)
Definition findValueIdForValue (d : BaseDictionary) (v : T) : value_id_t :=
  match position v (dict_values d) with
  | Some i => to_value_id i
  | None => value_id_max
  end.

(** Modelled from the spec: what [table->dictionaryAt(field)] points to is
    a dictionary that can "be viewed as a dictionary of the expression's
    value type", or one that cannot. *)
Inductive AbstractDictionary : Type :=
| DictionaryOf (d : BaseDictionary)
| DictionaryOfOtherType.

(** [std::dynamic_pointer_cast<storage::BaseDictionary<T>>] *)
Definition dynamic_pointer_cast (a : AbstractDictionary) : option BaseDictionary :=
  match a with
  | DictionaryOf d => Some d
  | DictionaryOfOtherType => None
  end.

(** Modelled from the spec: the table class is missing.  The spec lists
    what is consumed from it: "per-row ValueId access by (field, row);
    per-field dictionary handle retrieval", and the resolution of a field
    name.  [None] is the table rejecting the call. *)
Record AbstractTable : Type := mkTable {
  numberOfColumn : field_name_t -> option field_t;
  dictionaryAt : field_t -> option AbstractDictionary;
  getValueId : field_t -> nat -> option ValueId
}.

(** [storage::c_atable_ptr_t], a shared pointer that may be empty. *)
Definition c_atable_ptr_t : Type := option AbstractTable.

(** The calls an expression makes into its collaborators. *)
Inductive Call : Type :=
| CallNumberOfColumn (n : field_name_t)
| CallDictionaryAt (f : field_t)
| CallGetValueId (f : field_t) (row : nat)
| CallFindValueIdForValue (v : T).

Definition is_lookup (c : Call) : bool :=
  match c with CallFindValueIdForValue _ => true | _ => false end.

Definition is_table_access (c : Call) : bool :=
  match c with
  | CallNumberOfColumn _ | CallDictionaryAt _ | CallGetValueId _ _ => true
  | CallFindValueIdForValue _ => false
  end.

(** The dictionary lookups, respectively the table accesses, among the
    recorded calls. *)
Definition lookups (tr : list Call) : list Call := List.filter is_lookup tr.
Definition table_accesses (tr : list Call) : list Call := List.filter is_table_access tr.

(** Modelled from the spec: the base class [SimpleFieldExpression] of
    [pred_common.h] is missing.  The source uses its members [table] and
    [field] and its three constructors.  The spec: an expression is
    "constructed with unbound field/table references (by index, by name,
    or by direct table handle)", and [walk] receives "the ordered list of
    concrete input tables", the table being "chosen later by slot
    position", and must "resolve its field reference to a concrete field
    index against the selected table"; a second call "must re-resolve
    from scratch". *)
Record SimpleFieldExpression : Type := mkSimpleFieldExpression {
  table : c_atable_ptr_t;
  field : field_t;
  field_name : option field_name_t;
  input : nat
}.

(** A member that a constructor does not initialise holds whatever its
    storage held.  These contents are an argument of the constructors. *)
Record Indeterminate : Type := mkIndeterminate {
  some_field : field_t;
  some_lower_bound : ValueId;
  some_value_exists : bool
}.

(** Modelled from the spec: construction "from (input slot index, field
    index, ...)", "from (input slot index, field name, ...)" and "from
    (direct table handle, field index, ...)". *)
Definition SimpleFieldExpression_by_index (i : nat) (f : field_t) : SimpleFieldExpression :=
  {| table := None; field := f; field_name := None; input := i |}.

Definition SimpleFieldExpression_by_name (u : Indeterminate) (i : nat) (f : field_name_t)
  : SimpleFieldExpression :=
  {| table := None; field := some_field u; field_name := Some f; input := i |}.

Definition SimpleFieldExpression_by_table (_table : c_atable_ptr_t) (_field : field_t)
  : SimpleFieldExpression :=
  {| table := _table; field := _field; field_name := None; input := direct_input |}.

(** Modelled from the spec: [SimpleFieldExpression::walk] selects the
    table by slot position and resolves a field given by name against it. *)
Definition SimpleFieldExpression_walk (l : list c_atable_ptr_t) (b : SimpleFieldExpression)
  : M Call SimpleFieldExpression :=
  match l !! input b with
  | None => fail OutOfRange
  | Some t =>
      match field_name b with
      | None =>
          ret {| table := t; field := field b; field_name := None; input := input b |}
      | Some n =>
          let* tbl := deref t in
          let* f := call (CallNumberOfColumn n) (numberOfColumn tbl n) in
          ret {| table := t; field := f; field_name := Some n; input := input b |}
      end
  end.

(** *** [EqualsExpression<T>] *)

Record EqualsExpression : Type := mkEqualsExpression {
  base : SimpleFieldExpression;
  lower_bound : ValueId;
  valueIdMap : option BaseDictionary;
  value_exists : bool;
  value : T
}.

(** [EqualsExpression(size_t _input, field_t _field, T _value)] *)
Definition EqualsExpression_by_index (u : Indeterminate)
    (_input : nat) (_field : field_t) (_value : T) : EqualsExpression :=
  {| base := SimpleFieldExpression_by_index _input _field;
     lower_bound := some_lower_bound u;
     valueIdMap := None;
     value_exists := some_value_exists u;
     value := _value |}.

(** [EqualsExpression(size_t _input, field_name_t _field, T _value)] *)
Definition EqualsExpression_by_name (u : Indeterminate)
    (_input : nat) (_field : field_name_t) (_value : T) : EqualsExpression :=
  {| base := SimpleFieldExpression_by_name u _input _field;
     lower_bound := some_lower_bound u;
     valueIdMap := None;
     value_exists := some_value_exists u;
     value := _value |}.

(** [EqualsExpression(storage::c_atable_ptr_t& _table, field_t _field, T _value)] *)
Definition EqualsExpression_by_table (u : Indeterminate)
    (_table : c_atable_ptr_t) (_field : field_t) (_value : T) : EqualsExpression :=
  {| base := SimpleFieldExpression_by_table _table _field;
     lower_bound := some_lower_bound u;
     valueIdMap := None;
     value_exists := some_value_exists u;
     value := _value |}.

(** [EqualsExpression::walk] *)
Definition walk (l : list c_atable_ptr_t) (e : EqualsExpression) : M Call EqualsExpression :=
  let* b := SimpleFieldExpression_walk l (base e) in
  let* tbl := deref (table b) in
  let* a := call (CallDictionaryAt (field b)) (dictionaryAt tbl (field b)) in
  let m := dynamic_pointer_cast a in
  let* d := deref m in
  let* id := call (CallFindValueIdForValue (value e)) (Some (findValueIdForValue d (value e))) in
  ret {| base := b;
         lower_bound := {| valueId := id |};
         valueIdMap := m;
         value_exists := negb (id =? value_id_max);
         value := value e |}.

(** [EqualsExpression::clone] *)
Definition clone (u : Indeterminate) (e : EqualsExpression) : EqualsExpression :=
  EqualsExpression_by_table u (table (base e)) (field (base e)) (value e).

(** [EqualsExpression::operator()]; [&&] evaluates its right operand only
    when the left one is true. *)
Definition eval (e : EqualsExpression) (row : nat) : M Call bool :=
  if value_exists e then
    let* tbl := deref (table (base e)) in
    let* id := call (CallGetValueId (field (base e)) row) (getValueId tbl (field (base e)) row) in
    ret (ValueId_eqb id (lower_bound e))
  else ret false.

End WithValueType.
End Expressions.

(** ** C++ member functions that mutate and throw

    A member function is a function from the state before the call to the
    result of the call and the state after it.  A [throw] leaves the state
    as it was when the exception was raised. *)

Module Cpp.

Inductive exception : Type :=
| std_runtime_error (what : string)
| std_out_of_range
| tracing_error (what : string).

(** [class TracingError : public std::runtime_error], whose constructor
    passes ["TracingError: " + what] to its base class. *)
Definition TracingError (what : string) : exception :=
  tracing_error ("TracingError: " +:+ what).

Inductive Result (A : Type) : Type :=
| Return (a : A)
| Throw (e : exception).
Arguments Return {A} a.
Arguments Throw {A} e.

Section WithState.
Context {St : Type}.

Definition Fn (A : Type) : Type := St -> Result A * St.

Definition ret {A} (a : A) : Fn A := fun s => (Return a, s).

Definition throw {A} (e : exception) : Fn A := fun s => (Throw e, s).

Definition bind {A B} (m : Fn A) (k : A -> Fn B) : Fn B :=
  fun s =>
    match m s with
    | (Return a, s') => k a s'
    | (Throw e, s') => (Throw e, s')
    end.

Definition get : Fn St := fun s => (Return s, s).
Definition modify (f : St -> St) : Fn unit := fun s => (Return tt, f s).
End WithState.
Arguments Fn : clear implicits.

Declare Scope cpp_scope.
Delimit Scope cpp_scope with cpp.
Notation "'let*' x := m 'in' k" := (bind m (fun x => k))
  (at level 10, x name, m at level 100, k at level 200) : cpp_scope.
Notation "m ;; k" := (bind m (fun _ => k))
  (at level 100, k at level 200, right associativity) : cpp_scope.

(** [std::find] followed by [std::distance] from [begin()]: the position
    of the first element equal to [v]; [None] is [end()]. *)
Fixpoint find_index {A} `{EqDecision A} (v : A) (l : list A) : option nat :=
  match l with
  | [] => None
  | x :: l' => if decide (x = v) then Some 0%nat else S <$> find_index v l'
  end.

(** Modelled from the spec: [joinString] of [helper/stringhelpers.h] is
    missing.  The spec says of the message built with it that it includes
    "the list of currently registered names"; the names are joined with
    the delimiter between them. *)
Definition joinString (l : list string) (delim : string) : string :=
  String.concat delim l.

(** [s] occurs in [t]. *)
Definition occurs_in (s t : string) : Prop := exists a b, t = a +:+ s +:+ b.

End Cpp.

(** ** The tracer, hardware-counter backend ([#ifdef USE_PAPI_TRACE]) *)

Module Papi.
Import Cpp.
Local Open Scope cpp_scope.

(** The PAPI library ([papi.h]) is external.  Its state (event sets,
    counters) and its functions are parameters; a function returns its PAPI
    return code, what it writes through its pointer arguments, and the
    library state after the call. *)
Class Library : Type := {
  state : Type;
  PAPI_OK : Z;
  PAPI_strerror : Z -> string;
  PAPI_event_name_to_code : string -> state -> Z * Z * state;
  PAPI_add_event : Z -> Z -> state -> Z * unit * state;
  PAPI_reset : Z -> state -> Z * unit * state;
  PAPI_start : Z -> state -> Z * unit * state;
  PAPI_stop : Z -> state -> Z * list Z * state
}.

Section WithLibrary.
Context `{Library}.

Definition result_t : Type := Z.

Record PapiTracer : Type := mkPapiTracer {
  _eventSet : Z;
  _disabled : bool;
  _running : bool;
  _counters : list string;
  _results : list result_t
}.

Definition set_disabled (b : bool) (t : PapiTracer) : PapiTracer :=
  mkPapiTracer (_eventSet t) b (_running t) (_counters t) (_results t).
Definition set_running (b : bool) (t : PapiTracer) : PapiTracer :=
  mkPapiTracer (_eventSet t) (_disabled t) b (_counters t) (_results t).
Definition set_counters (c : list string) (t : PapiTracer) : PapiTracer :=
  mkPapiTracer (_eventSet t) (_disabled t) (_running t) c (_results t).
Definition set_results (r : list result_t) (t : PapiTracer) : PapiTracer :=
  mkPapiTracer (_eventSet t) (_disabled t) (_running t) (_counters t) r.

(** The tracer object together with the library it calls into. *)
Record World : Type := mkWorld { this : PapiTracer; papi : state }.

Definition on_this (f : PapiTracer -> PapiTracer) : Fn World unit :=
  modify (fun w => mkWorld (f (this w)) (papi w)).

(** A library function that writes nothing into the tracer. *)
Definition library_call {A} (f : state -> Z * A * state) : World -> Z * A * World :=
  fun w => let '(retval, a, p) := f (papi w) in (retval, a, mkWorld (this w) p).

(** [PAPI_stop(_eventSet, _results.data())]: the library writes one value
    per event of the event set into the storage of [_results].  The
    vector keeps its size; a value written past its end is not an
    element of it. *)
Definition write_values (vals buf : list result_t) : list result_t :=
  take (length buf) (vals ++ drop (length vals) buf).

Definition PAPI_stop_into_results (eventSet : Z) : World -> Z * unit * World :=
  fun w =>
    let '(retval, vals, p) := PAPI_stop eventSet (papi w) in
    (retval, tt, mkWorld (set_results (write_values vals (_results (this w))) (this w)) p).

(** [handle(function, activity, args...)]; the call [function(args...)]
    is the argument [function]. *)
Definition handle {A} (function : World -> Z * A * World) (activity : string) : Fn World A :=
  fun w =>
    let '(retval, a, w') := function w in
    if negb (retval =? PAPI_OK)
    then (Throw (TracingError (activity +:+ " failed: " +:+ PAPI_strerror retval)), w')
    else (Return a, w').

(** [PapiTracer::addEvent] *)
Definition addEvent (eventName : string) : Fn World unit :=
  if String.eqb eventName "NO_PAPI" then
    on_this (set_disabled true)
  else
    on_this (fun t => set_counters (_counters t ++ [eventName]) t).

(** The [for] loop of [start] over [_counters]. *)
Fixpoint add_events (eventSet : Z) (names : list string) : Fn World unit :=
  match names with
  | [] => ret tt
  | eventName :: rest =>
      let* eventCode := handle (library_call (PAPI_event_name_to_code eventName))
                               ("Create event from " +:+ eventName) in
      handle (library_call (PAPI_add_event eventSet eventCode)) "Adding event to event set" ;;
      add_events eventSet rest
  end.

(** [PapiTracer::start] *)
Definition start : Fn World unit :=
  let* w := get in
  if _disabled (this w) then ret tt
  else
    match _counters (this w) with
    | [] => throw (std_runtime_error "No events set")
    | _ :: _ =>
        add_events (_eventSet (this w)) (_counters (this w)) ;;
        on_this (set_results []) ;;
        on_this (fun t => set_results (replicate (length (_counters t)) 0) t) ;;
        on_this (set_running true) ;;
        handle (library_call (PAPI_reset (_eventSet (this w)))) "Reset counter" ;;
        handle (library_call (PAPI_start (_eventSet (this w)))) "Starting counter"
    end.

(** [PapiTracer::stop] *)
Definition stop : Fn World unit :=
  let* w := get in
  if _disabled (this w) then ret tt
  else
    handle (PAPI_stop_into_results (_eventSet (this w))) "Stopping Counter" ;;
    on_this (set_running false).

(** [PapiTracer::reset] *)
Definition reset : Fn World unit :=
  let* w := get in
  if _disabled (this w) then ret tt
  else
    stop ;;
    on_this (set_results []) ;;
    handle (library_call (PAPI_reset (_eventSet (this w)))) "Reset counter".

(** [PapiTracer::value] *)
Definition value (eventName : string) : Fn World result_t :=
  let* w := get in
  if _disabled (this w) then ret 0
  else
    match find_index eventName (_counters (this w)) with
    | None =>
        throw (TracingError ("Trying to access unregistered event '" +:+ eventName +:+ "' "
                             +:+ "Available: " +:+ joinString (_counters (this w)) " "))
    | Some index =>
        match _results (this w) !! index with
        | Some r => ret r
        | None => throw std_out_of_range
        end
    end.

(** A name that the library does not translate, in whatever state it is. *)
Definition invalid_name (name : string) : Prop :=
  forall s, (PAPI_event_name_to_code name s).1.1 <> PAPI_OK.

(** What is measured and with what: the library state, the event set,
    the running flag and the results. *)
Definition same_measurement (w w' : World) : Prop :=
  papi w' = papi w /\
  _eventSet (this w') = _eventSet (this w) /\
  _running (this w') = _running (this w) /\
  _results (this w') = _results (this w).

(** The member functions a caller can invoke, and a sequence of calls.
    An exception ends the sequence. *)
Inductive Op : Type :=
| OpAddEvent (eventName : string)
| OpStart
| OpStop
| OpReset
| OpValue (eventName : string).

Definition run_op (o : Op) : Fn World (option result_t) :=
  match o with
  | OpAddEvent n => addEvent n ;; ret None
  | OpStart => start ;; ret None
  | OpStop => stop ;; ret None
  | OpReset => reset ;; ret None
  | OpValue n => let* v := value n in ret (Some v)
  end.

Fixpoint run (os : list Op) : Fn World unit :=
  match os with
  | [] => ret tt
  | o :: os' => run_op o ;; run os'
  end.

End WithLibrary.
End Papi.

(** ** The tracer, fallback backend ([#else]) *)

Module Fallback.
Import Cpp.
Local Open Scope cpp_scope.

Definition result_t : Type := Z.

(** [struct timeval] *)
Record timeval : Type := mkTimeval { tv_sec : Z; tv_usec : Z }.

(** The class has no constructor: [_result] and [_start] of a new object
    hold whatever its storage held, so every record is a possible
    object. *)
Record FallbackTracer : Type := mkFallbackTracer {
  _counters : list string;
  _result : result_t;
  _start : timeval
}.

(** Signed arithmetic on [long] (64 bits).  An overflow, which C++ leaves
    undefined, is taken to wrap around. *)
Definition wrap64 (z : Z) : Z := (z + 2 ^ 63) mod 2 ^ 64 - 2 ^ 63.

(** [FallbackTracer::addEvent] *)
Definition addEvent (eventName : string) : Fn FallbackTracer unit :=
  modify (fun t => mkFallbackTracer (_counters t ++ [eventName]) (_result t) (_start t)).

(** [FallbackTracer::start]; [now] is what [gettimeofday] stores. *)
Definition start (now : timeval) : Fn FallbackTracer unit :=
  let* t := get in
  match _counters t with
  | [] => throw (TracingError "No events set")
  | _ :: _ =>
      modify (fun t => mkFallbackTracer (_counters t) 0 (_start t)) ;;
      modify (fun t => mkFallbackTracer (_counters t) (_result t) now)
  end.

(** [FallbackTracer::stop]; [now] is what [gettimeofday] stores in [end]. *)
Definition stop (now : timeval) : Fn FallbackTracer unit :=
  modify (fun t =>
    mkFallbackTracer (_counters t)
      (wrap64 (wrap64 (wrap64 (tv_sec now - tv_sec (_start t)) * 1000000)
               + wrap64 (tv_usec now - tv_usec (_start t))))
      (_start t)).

(** [FallbackTracer::reset] *)
Definition reset : Fn FallbackTracer unit :=
  modify (fun t => mkFallbackTracer (_counters t) (_result t) (mkTimeval 0 0)) ;;
  modify (fun t => mkFallbackTracer (_counters t) 0 (_start t)).

(** [FallbackTracer::value] *)
Definition value (eventName : string) : Fn FallbackTracer result_t :=
  let* t := get in
  match find_index eventName (_counters t) with
  | None =>
      throw (TracingError ("Trying to access unregistered event '" +:+ eventName +:+ "' "
                           +:+ "Available: " +:+ joinString (_counters t) " "))
  | Some _ => ret (_result t)
  end.

End Fallback.

(** ** The no-op plan operation *)

Module PlanOperations.
Import Cpp.
Local Open Scope cpp_scope.

(** [NoOp.h] is outside the files embedded here: the members of a [NoOp]
    object and the object that its default constructor builds are
    parameters.  So is [Json::Value], which belongs to the JSON library. *)
Class NoOp_h : Type := {
  NoOp : Type;
  NoOp_default : NoOp;
  Json_Value : Type
}.

Section WithDeclarations.
Context `{NoOp_h}.

(** The objects that shared pointers own, by address. *)
Definition Heap : Type := gmap nat NoOp.

(** [std::make_shared<NoOp>()]: a new object, default-constructed, at an
    address that holds no object yet. *)
Definition make_shared_NoOp : Fn Heap nat :=
  fun h => let p := fresh (dom h) in (Return p, <[p := NoOp_default]> h).

(** [NoOp::parse] *)
Definition parse (data : Json_Value) : Fn Heap nat :=
  make_shared_NoOp.

(** [NoOp::executePlanOperation], called on the object at [this]. *)
Definition executePlanOperation (this : nat) : Fn Heap unit :=
  ret tt.

End WithDeclarations.
End PlanOperations.



(** ** The tracer: construction and destruction ([PapiTracer] only) *)

Module PapiLifetime.
Import Cpp.
Local Open Scope cpp_scope.

(** The functions of the PAPI library that the constructor and the
    destructor call, and the constants they use.  [PAPI_create_eventset]
    and [PAPI_destroy_eventset] receive the event set by pointer: they take
    its value and return the value they leave. *)
Class Library `{Papi.Library} : Type := {
  PAPI_NULL : Z;
  PAPI_VER_CURRENT : Z;
  PAPI_library_init : Z -> Papi.state -> Z * unit * Papi.state;
  PAPI_thread_init : Papi.state -> Z * unit * Papi.state;
  PAPI_create_eventset : Z -> Papi.state -> Z * Z * Papi.state;
  PAPI_cleanup_eventset : Z -> Papi.state -> Z * unit * Papi.state;
  PAPI_destroy_eventset : Z -> Papi.state -> Z * Z * Papi.state
}.

(** A call returns or throws, or ends the process with [exit]. *)
Inductive Completion (A : Type) : Type :=
| Done (r : Result A)
| Exited (status : Z).
Arguments Done {A} r.
Arguments Exited {A} status.

Section WithLibrary.
Context `{Library}.

(** What a constructor call works on: the function-local static
    [initialized] of [initialize], the standard output, and the library.
    One thread is modelled; the mutex of [initialize] orders the calls of
    several. *)
Record Process : Type := mkProcess {
  initialized : bool;
  stdout : list string;
  papi : Papi.state
}.

(** [PapiTracer::initialize] *)
Definition initialize : Fn Process unit :=
  fun p =>
    if negb (initialized p) then
      let '(retval, _, s) := PAPI_library_init PAPI_VER_CURRENT (papi p) in
      if negb (retval =? PAPI_VER_CURRENT)
      then (Throw (TracingError "PAPI could not be initialized"),
            mkProcess (initialized p) (stdout p) s)
      else (Return tt, mkProcess true (stdout p) s)
    else (Return tt, p).

(** [PapiTracer::PapiTracer()]: the object it constructs, when it returns. *)
Definition PapiTracer_new : Process -> Completion Papi.PapiTracer * Process :=
  fun p =>
    match initialize p with
    | (Throw e, p1) => (Done (Throw e), p1)
    | (Return _, p1) =>
        let '(r1, _, s1) := PAPI_thread_init (papi p1) in
        if negb (r1 =? Papi.PAPI_OK)
        then (Done (Throw (TracingError "PAPI could not initialize thread")),
              mkProcess (initialized p1) (stdout p1) s1)
        else
          let '(retval, eventSet, s2) := PAPI_create_eventset PAPI_NULL s1 in
          if negb (retval =? Papi.PAPI_OK)
          then (Exited (-1),
                mkProcess (initialized p1) (stdout p1 ++ ["PAPI eventset creation failed"]) s2)
          else (Done (Return (Papi.mkPapiTracer eventSet false false [] [])),
                mkProcess (initialized p1) (stdout p1) s2)
    end.

(** [PAPI_destroy_eventset(&_eventSet)] *)
Definition PAPI_destroy_eventset_of_this : Papi.World -> Z * unit * Papi.World :=
  fun w =>
    let '(retval, eventSet, s) :=
      PAPI_destroy_eventset (Papi._eventSet (Papi.this w)) (Papi.papi w) in
    (retval, tt,
     Papi.mkWorld
       (Papi.mkPapiTracer eventSet (Papi._disabled (Papi.this w)) (Papi._running (Papi.this w))
          (Papi._counters (Papi.this w)) (Papi._results (Papi.this w)))
       s).

(** [PapiTracer::~PapiTracer()] *)
Definition PapiTracer_delete : Fn Papi.World unit :=
  let* w := get in
  (if Papi._running (Papi.this w) then Papi.stop else ret tt) ;;
  Papi.handle (Papi.library_call (PAPI_cleanup_eventset (Papi._eventSet (Papi.this w))))
              "cleaning eventset" ;;
  Papi.handle PAPI_destroy_eventset_of_this "destroying eventset".

(** Constructor calls one after the other, each on the process that the
    one before left; an [exit] ends the sequence. *)
Fixpoint constructions (n : nat) (p : Process) : Process :=
  match n with
  | O => p
  | S n' =>
      match PapiTracer_new p with
      | (Done _, p') => constructions n' p'
      | (Exited _, p') => p'
      end
  end.

End WithLibrary.
End PapiLifetime.

(** ** Conditions on the collaborators *)

Module Conditions.
Section WithLibrary.
Context `{Papi.Library}.

(** The library translates every name of [names] and attaches every event,
    in whatever state it is. *)
Definition attaches (names : list string) : Prop :=
  (forall n s, In n names -> (Papi.PAPI_event_name_to_code n s).1.1 = Papi.PAPI_OK) /\
  (forall es c s, (Papi.PAPI_add_event es c s).1.1 = Papi.PAPI_OK).

(** The library attaches [names] and accepts every other call that
    [start], [stop] and [reset] make, in whatever state it is. *)
Definition accepts (names : list string) : Prop :=
  attaches names /\
  (forall es s, (Papi.PAPI_reset es s).1.1 = Papi.PAPI_OK) /\
  (forall es s, (Papi.PAPI_start es s).1.1 = Papi.PAPI_OK) /\
  (forall es s, (Papi.PAPI_stop es s).1.1 = Papi.PAPI_OK).

(** The tracer that [start] leaves when it got past its loop. *)
Definition started (t : Papi.PapiTracer) : Papi.PapiTracer :=
  Papi.set_running true
    (Papi.set_results (replicate (length (Papi._counters t)) 0) t).

(** No call of the sequence is [addEvent("NO_PAPI")]. *)
Definition without_sentinel (os : list Papi.Op) : Prop :=
  ~ In (Papi.OpAddEvent "NO_PAPI") os.

End WithLibrary.

(** A [timeval] as [gettimeofday] fills it: microseconds below one second,
    seconds since the epoch that fit well into 64 bits. *)
Definition normalized (tv : Fallback.timeval) : Prop :=
  0 <= Fallback.tv_usec tv < 1000000 /\ 0 <= Fallback.tv_sec tv < 2 ^ 40.

(** The microseconds since the epoch. *)
Definition microseconds (tv : Fallback.timeval) : Z :=
  Fallback.tv_sec tv * 1000000 + Fallback.tv_usec tv.

End Conditions.

(** ** Sequences of calls on the fallback tracer *)

Module FallbackCalls.
Import Cpp.
Local Open Scope cpp_scope.

(** The member functions a caller can invoke; [start] and [stop] come with
    the time that [gettimeofday] reports to them.  An exception ends the
    sequence. *)
Inductive Op : Type :=
| OpAddEvent (eventName : string)
| OpStart (now : Fallback.timeval)
| OpStop (now : Fallback.timeval)
| OpReset
| OpValue (eventName : string).

Definition run_op (o : Op) : Fn Fallback.FallbackTracer (option Fallback.result_t) :=
  match o with
  | OpAddEvent n => Fallback.addEvent n ;; ret None
  | OpStart now => Fallback.start now ;; ret None
  | OpStop now => Fallback.stop now ;; ret None
  | OpReset => Fallback.reset ;; ret None
  | OpValue n => let* v := Fallback.value n in ret (Some v)
  end.

Fixpoint run (os : list Op) : Fn Fallback.FallbackTracer unit :=
  match os with
  | [] => ret tt
  | o :: os' => run_op o ;; run os'
  end.

End FallbackCalls.

(** ** Concrete collaborators

    A small table, a library that knows one counter, and a plan-operation
    declaration, on which the functions above can be run. *)

Module Examples.
Import Expressions Cpp.

(** [value_id_t] of 32 bits; slot 0 for a direct table handle. *)
Definition types32 : helper_types := {| value_id_bits := 32 |}.
Definition slot0 : pred_common := {| direct_input := 0 |}.
#[export] Existing Instance types32.
#[export] Existing Instance slot0.

(** A column of integers with dictionary [10, 20, 30] and four rows
    holding 10, 30, 20, 30. *)
Definition prices : BaseDictionary (T:=Z) := mkDictionary [10; 20; 30].

Definition orders : AbstractTable (T:=Z) :=
  {| numberOfColumn n := if String.eqb n "price" then Some 0%nat else None;
     dictionaryAt f := match f with O => Some (DictionaryOf prices) | _ => None end;
     getValueId f row :=
       match f with
       | O => mkValueId <$> ([0; 2; 1; 2] !! row)
       | _ => None
       end |}.

(** A second table with the same column: dictionary [20, 40], rows
    holding 40, 20. *)
Definition offers : AbstractTable (T:=Z) :=
  {| numberOfColumn n := if String.eqb n "price" then Some 0%nat else None;
     dictionaryAt f := match f with O => Some (DictionaryOf (mkDictionary [20; 40])) | _ => None end;
     getValueId f row :=
       match f with
       | O => mkValueId <$> ([1; 0] !! row)
       | _ => None
       end |}.

Definition garbage (b : bool) : Indeterminate :=
  {| some_field := 7%nat; some_lower_bound := mkValueId 2; some_value_exists := b |}.

(** [price == 20], [price == 30] and [price == 25] on input slot 0. *)
Definition price_is (v : Z) : EqualsExpression :=
  EqualsExpression_by_name (garbage true) 0 "price" v.

(** The expression that a successful [walk] leaves. *)
Definition walked (l : list c_atable_ptr_t) (e : EqualsExpression (T:=Z)) : EqualsExpression :=
  match walk l e with
  | (Trace.Ok e', _) => e'
  | (Trace.Fail _, _) => e
  end.

(** A PAPI library that knows the counter [PAPI_TOT_INS] only.  Its state
    is the list of event codes in the event set; stopping reports 42 for
    every event. *)
Definition PAPI_ENOEVNT : Z := -7.

Definition one_counter : Papi.Library :=
  {| Papi.state := list Z;
     Papi.PAPI_OK := 0;
     Papi.PAPI_strerror r := if r =? PAPI_ENOEVNT then "Event does not exist" else "No error";
     Papi.PAPI_event_name_to_code n s :=
       if String.eqb n "PAPI_TOT_INS" then (0, 50, s) else (PAPI_ENOEVNT, 0, s);
     Papi.PAPI_add_event es c s := (0, tt, s ++ [c]);
     Papi.PAPI_reset es s := (0, tt, s);
     Papi.PAPI_start es s := (0, tt, s);
     Papi.PAPI_stop es s := (0, (fun _ => 42) <$> s, s) |}.
#[export] Existing Instance one_counter.

(** A tracer as its constructor leaves it, with event set 1. *)
Definition new_tracer : Papi.PapiTracer := Papi.mkPapiTracer 1 false false [] [].
Definition new_world : Papi.World := Papi.mkWorld new_tracer [].

(** The worlds after [addEvent("PAPI_TOT_INS")] and after
    [addEvent("BOGUS")]. *)
Definition with_counter : Papi.World :=
  Papi.mkWorld (Papi.mkPapiTracer 1 false false ["PAPI_TOT_INS"] []) [].
Definition with_bogus : Papi.World :=
  Papi.mkWorld (Papi.mkPapiTracer 1 false false ["BOGUS"] []) [].

Definition new_fallback : Fallback.FallbackTracer :=
  Fallback.mkFallbackTracer [] 123 (Fallback.mkTimeval 5 6).

(** A [NoOp] without members; the payload is a string. *)
Definition unit_NoOp : PlanOperations.NoOp_h :=
  {| PlanOperations.NoOp := unit;
     PlanOperations.NoOp_default := tt;
     PlanOperations.Json_Value := string |}.

End Examples.


(** ** Further concrete collaborators *)

Module MoreExamples.
Import Expressions Cpp.

(** A table whose first column holds strings: seen from an expression on
    integers, its dictionary is of another value type. *)
Definition names_table : AbstractTable (T:=Z) :=
  {| numberOfColumn n := if String.eqb n "name" then Some 0%nat else None;
     dictionaryAt f := match f with O => Some DictionaryOfOtherType | _ => None end;
     getValueId f row := match f with O => Some (mkValueId 0) | _ => None end |}.

(** The constructor and destructor functions for the library
    [Examples.one_counter]: every call succeeds, and the event set created
    is 1. *)
Definition one_counter_lifetime : PapiLifetime.Library (H:=Examples.one_counter) :=
  {| PapiLifetime.PAPI_NULL := -1;
     PapiLifetime.PAPI_VER_CURRENT := 7;
     PapiLifetime.PAPI_library_init v s := (v, tt, s);
     PapiLifetime.PAPI_thread_init s := (0, tt, s);
     PapiLifetime.PAPI_create_eventset es s := (0, 1, s);
     PapiLifetime.PAPI_cleanup_eventset es s := (0, tt, s);
     PapiLifetime.PAPI_destroy_eventset es s := (0, -1, s) |}.

#[export] Existing Instance one_counter_lifetime.

(** A library that translates and attaches every name but refuses to start
    and to stop counters.  Its state counts the calls it received. *)
Definition refusing : Papi.Library :=
  {| Papi.state := nat;
     Papi.PAPI_OK := 0;
     Papi.PAPI_strerror r := "Permission level does not permit operation";
     Papi.PAPI_event_name_to_code n s := (0, 50, S s);
     Papi.PAPI_add_event es c s := (0, tt, S s);
     Papi.PAPI_reset es s := (0, tt, S s);
     Papi.PAPI_start es s := (-15, tt, S s);
     Papi.PAPI_stop es s := (-15, [], S s) |}.

Definition refusing_lifetime : PapiLifetime.Library (H:=refusing) :=
  {| PapiLifetime.PAPI_NULL := -1;
     PapiLifetime.PAPI_VER_CURRENT := 7;
     PapiLifetime.PAPI_library_init v s := (v, tt, s);
     PapiLifetime.PAPI_thread_init s := (0, tt, s);
     PapiLifetime.PAPI_create_eventset es s := (0, 1, s);
     PapiLifetime.PAPI_cleanup_eventset es s := (0, tt, s);
     PapiLifetime.PAPI_destroy_eventset es s := (0, -1, s) |}.

(** A tracer on that library with one counter, idle and running. *)
Definition refused_idle : Papi.World (H:=refusing) :=
  Papi.mkWorld (H:=refusing) (Papi.mkPapiTracer 1 false false ["PAPI_TOT_INS"] []) 0%nat.
Definition refused_running : Papi.World (H:=refusing) :=
  Papi.mkWorld (H:=refusing) (Papi.mkPapiTracer 1 false true ["PAPI_TOT_INS"] [0]) 0%nat.

(** A tracer on [Examples.one_counter] on which [X] was registered twice. *)
Definition registered_twice : Papi.World (H:=Examples.one_counter) :=
  Papi.mkWorld (H:=Examples.one_counter)
    (Papi.mkPapiTracer 1 false false ["X"; "Y"; "X"] [1; 2; 3]) [].

(** A process in which no tracer was constructed yet. *)
Definition new_process : PapiLifetime.Process (H:=Examples.one_counter) :=
  PapiLifetime.mkProcess (H:=Examples.one_counter) false [] [].

End MoreExamples.

(** * Properties *)

(** ** The equality predicate *)

Section ExpressionFacts.
Import Expressions.
Context {T : Type} `{EqDecision T} `{helper_types} `{pred_common}.
Implicit Types (e : EqualsExpression (T:=T)) (b : SimpleFieldExpression (T:=T)).
Implicit Types (l : list (c_atable_ptr_t (T:=T))) (tr : list (Call (T:=T))).

Lemma position_Some (v : T) (vs : list T) (i : nat) :
  position v vs = Some i -> vs !! i = Some v.
Proof.
  revert i. induction vs as [|x vs IH]; intros i; simpl; [discriminate|].
  destruct (decide (x = v)) as [->|Hne].
  - intros [= <-]. reflexivity.
  - destruct (position v vs) as [j|]; simpl; [|discriminate].
    intros [= <-]. simpl. now apply IH.
Qed.

Lemma position_None (v : T) (vs : list T) : position v vs = None <-> ~ In v vs.
Proof.
  induction vs as [|x vs IH]; simpl; [tauto|].
  destruct (decide (x = v)) as [->|Hne].
  - split; [discriminate | intros Hn; exfalso; apply Hn; now left].
  - destruct (position v vs) as [j|]; simpl.
    + split; [discriminate|]. intros Hn. exfalso.
      destruct IH as [_ IH]. enough (@None nat = Some j) by discriminate.
      symmetry. apply IH. tauto.
    + split; [|reflexivity]. intros _ [Heq|Hin]; [contradiction|].
      now apply IH.
Qed.

Lemma findValueIdForValue_absent (d : BaseDictionary) (v : T) :
  ~ In v (dict_values d) -> findValueIdForValue d v = value_id_max.
Proof.
  intros Hv. unfold findValueIdForValue.
  apply position_None in Hv. now rewrite Hv.
Qed.

Lemma findValueIdForValue_present (d : BaseDictionary) (v : T) :
  In v (dict_values d) ->
  Z.of_nat (length (dict_values d)) <= value_id_max ->
  0 <= findValueIdForValue d v < value_id_max.
Proof.
  intros Hv Hsize. unfold findValueIdForValue.
  destruct (position v (dict_values d)) as [i|] eqn:Hp.
  - apply position_Some, lookup_lt_Some in Hp.
    unfold to_value_id, value_id_max in *.
    rewrite Z.mod_small; lia.
  - apply position_None in Hp. contradiction.
Qed.

(** The base class makes no dictionary lookup. *)
Lemma SimpleFieldExpression_walk_lookups l b :
  lookups (calls (SimpleFieldExpression_walk l b)) = [].
Proof.
  unfold SimpleFieldExpression_walk.
  destruct (l !! input b) as [t|]; [|reflexivity].
  destruct (field_name b) as [n|]; [|reflexivity].
  destruct t as [tbl|]; [|reflexivity]. simpl.
  destruct (numberOfColumn tbl n); reflexivity.
Qed.

(** Walking the base class again selects the table and resolves the field
    as the first walk did from the same configuration. *)
Lemma base_walk_twice l1 l2 b b1 tr1 :
  SimpleFieldExpression_walk l1 b = (Ok b1, tr1) ->
  SimpleFieldExpression_walk l2 b1 = SimpleFieldExpression_walk l2 b.
Proof.
  unfold SimpleFieldExpression_walk.
  destruct (l1 !! input b) as [t|]; [|discriminate].
  destruct (field_name b) as [n|] eqn:Hn.
  - destruct t as [tbl|]; [|discriminate]. simpl.
    destruct (numberOfColumn tbl n); [|discriminate].
    intros [= <- _]. reflexivity.
  - intros [= <- _]. reflexivity.
Qed.

(** What a successful [walk] has done. *)
Lemma walk_Ok l e e' tr :
  walk l e = (Ok e', tr) ->
  exists b tbl d tr0,
    SimpleFieldExpression_walk l (base e) = (Ok b, tr0) /\
    table b = Some tbl /\
    dictionaryAt tbl (field b) = Some (DictionaryOf d) /\
    tr = tr0 ++ [CallDictionaryAt (field b); CallFindValueIdForValue (value e)] /\
    e' = {| base := b;
            lower_bound := {| valueId := findValueIdForValue d (value e) |};
            valueIdMap := Some d;
            value_exists := negb (findValueIdForValue d (value e) =? value_id_max);
            value := value e |}.
Proof.
  unfold walk.
  destruct (SimpleFieldExpression_walk l (base e)) as [[b|f] tr0]; [|discriminate].
  simpl. destruct (table b) as [tbl|] eqn:Ht; [|discriminate]. simpl.
  destruct (dictionaryAt tbl (field b)) as [[d|]|] eqn:Hd; [|discriminate..].
  simpl. intros [= <- <-].
  exists b, tbl, d, tr0. now rewrite Ht.
Qed.

(** The result of [walk] depends on the configuration of the expression
    only: its base class part and its literal. *)
Lemma walk_configuration l e e2 :
  base e2 = base e -> value e2 = value e -> walk l e2 = walk l e.
Proof. unfold walk. now intros -> ->. Qed.

Lemma ValueId_eqb_eq (a c : ValueId) : ValueId_eqb a c = true <-> a = c.
Proof.
  destruct a as [x], c as [y]. unfold ValueId_eqb. simpl.
  rewrite Z.eqb_eq. split; [now intros -> | now intros [= ->]].
Qed.

(** C1.  An equality predicate walked against tables that bind it to a
    column whose dictionary does not hold the literal evaluates to false
    on every row index.  The walk made exactly one dictionary lookup, of
    the literal, and an evaluation makes no call at all: no lookup and no
    access to the table. *)
Theorem equals_absent_literal l e e' tr tbl (d : BaseDictionary) :
  walk l e = (Ok e', tr) ->
  table (base e') = Some tbl ->
  dictionaryAt tbl (field (base e')) = Some (DictionaryOf d) ->
  ~ In (value e) (dict_values d) ->
  (forall row, eval e' row = (Ok false, [])) /\
  lookups tr = [CallFindValueIdForValue (value e)] /\
  (forall rows, lookups (tr ++ concat ((fun row => calls (eval e' row)) <$> rows))
                = [CallFindValueIdForValue (value e)]) /\
  (forall row, table_accesses (calls (eval e' row)) = []).
Proof.
  intros Hwalk Htbl Hdict Habsent.
  destruct (walk_Ok _ _ _ _ Hwalk) as (b & tbl' & d' & tr0 & Hb & Ht & Hd & -> & ->).
  simpl in Htbl, Hdict. rewrite Ht in Htbl. injection Htbl as ->.
  rewrite Hd in Hdict. injection Hdict as ->.
  assert (Heval : forall row,
    eval {| base := b;
            lower_bound := {| valueId := findValueIdForValue d (value e) |};
            valueIdMap := Some d;
            value_exists := negb (findValueIdForValue d (value e) =? value_id_max);
            value := value e |} row = (Ok false, [])).
  { intros row. unfold eval. simpl.
    rewrite (findValueIdForValue_absent _ _ Habsent), Z.eqb_refl. reflexivity. }
  assert (Hlook : lookups (tr0 ++ [CallDictionaryAt (field b); CallFindValueIdForValue (value e)])
                  = [CallFindValueIdForValue (value e)]).
  { unfold lookups. rewrite List.filter_app.
    pose proof (SimpleFieldExpression_walk_lookups l (base e)) as Hno.
    rewrite Hb in Hno. unfold lookups, calls in Hno. simpl in Hno.
    rewrite Hno. reflexivity. }
  repeat split.
  - exact Heval.
  - exact Hlook.
  - intros rows. unfold lookups in *. rewrite List.filter_app, Hlook.
    induction rows as [|row rows IH]; [reflexivity|].
    simpl. rewrite Heval. exact IH.
  - intros row. now rewrite Heval.
Qed.

(** C2.  An equality predicate walked against tables that bind it to a
    column whose dictionary holds the literal has cached the ValueId of
    the literal, and on every row that stores a ValueId for the bound
    field it evaluates to true when that ValueId is the cached one and to
    false when it is not.  The dictionary holds no more entries than
    there are ValueIds below the sentinel. *)
Theorem equals_present_literal l e e' tr tbl (d : BaseDictionary) :
  walk l e = (Ok e', tr) ->
  table (base e') = Some tbl ->
  dictionaryAt tbl (field (base e')) = Some (DictionaryOf d) ->
  In (value e) (dict_values d) ->
  Z.of_nat (length (dict_values d)) <= value_id_max ->
  lower_bound e' = {| valueId := findValueIdForValue d (value e) |} /\
  forall row id,
    getValueId tbl (field (base e')) row = Some id ->
    (id = lower_bound e' -> outcome (eval e' row) = Ok true) /\
    (id <> lower_bound e' -> outcome (eval e' row) = Ok false).
Proof.
  intros Hwalk Htbl Hdict Hpresent Hsize.
  destruct (walk_Ok _ _ _ _ Hwalk) as (b & tbl' & d' & tr0 & Hb & Ht & Hd & -> & ->).
  simpl in Htbl, Hdict. rewrite Ht in Htbl. injection Htbl as ->.
  rewrite Hd in Hdict. injection Hdict as ->.
  split; [reflexivity|].
  intros row id Hid. simpl in Hid. unfold eval. simpl.
  pose proof (findValueIdForValue_present _ _ Hpresent Hsize) as Hlt.
  destruct (Z.eqb_spec (findValueIdForValue d (value e)) value_id_max) as [Heq|_]; [lia|].
  simpl. rewrite Ht. simpl. rewrite Hid. simpl. split.
  - intros ->. f_equal. now apply ValueId_eqb_eq.
  - intros Hne. f_equal. destruct (ValueId_eqb _ _) eqn:Heqb; [|reflexivity].
    apply ValueId_eqb_eq in Heqb. contradiction.
Qed.


End ExpressionFacts.

(** ** The tracer *)

Section TracerFacts.
Import Cpp.
Context `{Papi.Library}.

Lemma find_index_None {A} `{EqDecision A} (v : A) (l : list A) :
  find_index v l = None <-> ~ In v l.
Proof.
  induction l as [|x l IH]; simpl; [tauto|].
  destruct (decide (x = v)) as [->|Hne].
  - split; [discriminate | intros Hn; exfalso; apply Hn; now left].
  - destruct (find_index v l) as [j|]; simpl.
    + split; [discriminate|]. intros Hn. exfalso.
      destruct IH as [_ IH]. enough (@None nat = Some j) by discriminate.
      symmetry. apply IH. tauto.
    + split; [|reflexivity]. intros _ [Heq|Hin]; [contradiction|].
      now apply IH.
Qed.

Lemma find_index_Some {A} `{EqDecision A} (v : A) (l : list A) :
  In v l -> exists i, find_index v l = Some i /\ l !! i = Some v.
Proof.
  induction l as [|x l IH]; simpl; [tauto|].
  destruct (decide (x = v)) as [->|Hne].
  - intros _. now exists 0%nat.
  - intros [Heq|Hin]; [contradiction|].
    destruct (IH Hin) as (i & -> & Hi). now exists (S i).
Qed.

Lemma append_assoc (a b c : string) : (a +:+ b) +:+ c = a +:+ b +:+ c.
Proof.
  induction a as [|ch a IH]; [reflexivity|].
  change (String ch ((a +:+ b) +:+ c) = String ch (a +:+ b +:+ c)).
  now rewrite IH.
Qed.

Lemma append_empty_r (a : string) : a +:+ "" = a.
Proof.
  induction a as [|ch a IH]; [reflexivity|].
  change (String ch (a +:+ "") = String ch a). now rewrite IH.
Qed.

Lemma occurs_in_append_l (s t a : string) : occurs_in s t -> occurs_in s (a +:+ t).
Proof.
  intros (x & y & ->). exists (a +:+ x), y. now rewrite append_assoc.
Qed.

Lemma occurs_in_joinString (c : string) (cs : list string) (delim : string) :
  In c cs -> occurs_in c (joinString cs delim).
Proof.
  unfold joinString. induction cs as [|x cs IH]; [intros []|].
  intros [->|Hin].
  - destruct cs as [|y cs].
    + exists "", "". simpl. now rewrite append_empty_r.
    + exists "", (delim +:+ String.concat delim (y :: cs)). reflexivity.
  - destruct cs as [|y cs]; [destruct Hin|].
    change (occurs_in c (x +:+ delim +:+ String.concat delim (y :: cs))).
    now apply occurs_in_append_l, occurs_in_append_l, IH.
Qed.

(** *** A disabled instance *)

Lemma start_disabled w :
  Papi._disabled (Papi.this w) = true -> Papi.start w = (Return tt, w).
Proof. intros Hd. unfold Papi.start, bind, get. now rewrite Hd. Qed.

Lemma stop_disabled w :
  Papi._disabled (Papi.this w) = true -> Papi.stop w = (Return tt, w).
Proof. intros Hd. unfold Papi.stop, bind, get. now rewrite Hd. Qed.

Lemma reset_disabled w :
  Papi._disabled (Papi.this w) = true -> Papi.reset w = (Return tt, w).
Proof. intros Hd. unfold Papi.reset, bind, get. now rewrite Hd. Qed.

Lemma value_disabled name w :
  Papi._disabled (Papi.this w) = true -> Papi.value name w = (Return 0, w).
Proof. intros Hd. unfold Papi.value, bind, get. now rewrite Hd. Qed.

Lemma run_op_disabled o w :
  Papi._disabled (Papi.this w) = true ->
  exists r w',
    Papi.run_op o w = (Return r, w') /\
    Papi._disabled (Papi.this w') = true /\
    Papi.same_measurement w w'.
Proof.
  intros Hd. unfold Papi.same_measurement. destruct o as [n| | | |n]; simpl; unfold bind.
  - unfold Papi.addEvent. destruct (String.eqb n "NO_PAPI"); simpl; eauto 10.
  - rewrite (start_disabled _ Hd). simpl. eauto 10.
  - rewrite (stop_disabled _ Hd). simpl. eauto 10.
  - rewrite (reset_disabled _ Hd). simpl. eauto 10.
  - rewrite (value_disabled _ _ Hd). simpl. eauto 10.
Qed.

Lemma run_disabled os w :
  Papi._disabled (Papi.this w) = true ->
  exists w',
    Papi.run os w = (Return tt, w') /\
    Papi._disabled (Papi.this w') = true /\
    Papi.same_measurement w w'.
Proof.
  revert w. induction os as [|o os IH]; intros w Hd.
  - exists w. unfold Papi.same_measurement. simpl. eauto 10.
  - destruct (run_op_disabled o w Hd) as (r & w1 & Ho & Hd1 & Hs1).
    destruct (IH w1 Hd1) as (w2 & Hrun & Hd2 & Hs2).
    exists w2. simpl. unfold bind. rewrite Ho, Hrun.
    unfold Papi.same_measurement in *. intuition congruence.
Qed.

(** *** Registration and start *)

Lemma addEvent_records name w :
  name <> "NO_PAPI" ->
  Papi.addEvent name w
  = (Return tt,
     Papi.mkWorld (Papi.set_counters (Papi._counters (Papi.this w) ++ [name]) (Papi.this w))
                  (Papi.papi w)).
Proof.
  intros Hne. unfold Papi.addEvent.
  destruct (String.eqb_spec name "NO_PAPI") as [Heq|_]; [contradiction|reflexivity].
Qed.

Lemma handle_failure {A} (function : Papi.World -> Z * A * Papi.World) activity w :
  (function w).1.1 <> Papi.PAPI_OK ->
  Papi.handle function activity w
  = (Throw (TracingError (activity +:+ " failed: " +:+ Papi.PAPI_strerror (function w).1.1)),
     (function w).2).
Proof.
  intros Hne. unfold Papi.handle. destruct (function w) as [[retval a] w']. simpl in *.
  destruct (Z.eqb_spec retval Papi.PAPI_OK) as [Heq|_]; [contradiction|reflexivity].
Qed.

Lemma handle_this {A} (f : Papi.state -> Z * A * Papi.state) activity w r w' :
  Papi.handle (Papi.library_call f) activity w = (r, w') -> Papi.this w' = Papi.this w.
Proof.
  unfold Papi.handle, Papi.library_call.
  destruct (f (Papi.papi w)) as [[retval a] p].
  destruct (negb (retval =? Papi.PAPI_OK)); now intros [= _ <-].
Qed.

Lemma handle_tracing_error {A} (function : Papi.World -> Z * A * Papi.World) activity w e w' :
  Papi.handle function activity w = (Throw e, w') -> exists what, e = tracing_error what.
Proof.
  unfold Papi.handle. destruct (function w) as [[retval a] w1].
  destruct (negb (retval =? Papi.PAPI_OK)); [|discriminate].
  intros [= <- _]. now eexists.
Qed.

(** The loop of [start] throws a tracing error when it holds an invalid
    name, and leaves the tracer as it was. *)
Lemma add_events_invalid eventSet name names w :
  Papi.invalid_name name ->
  In name names ->
  exists what w',
    Papi.add_events eventSet names w = (Throw (tracing_error what), w') /\
    Papi.this w' = Papi.this w.
Proof.
  intros Hinv. revert w. induction names as [|n names IH]; intros w; [intros []|].
  intros Hin. simpl. unfold bind at 1.
  destruct (Papi.handle (Papi.library_call (Papi.PAPI_event_name_to_code n)) _ w)
    as [[code|e] w1] eqn:Hcode.
  - pose proof (handle_this _ _ _ _ _ Hcode) as Hw1.
    unfold bind at 1.
    destruct (Papi.handle (Papi.library_call (Papi.PAPI_add_event eventSet code)) _ w1)
      as [[[]|e] w2] eqn:Hadd.
    + pose proof (handle_this _ _ _ _ _ Hadd) as Hw2.
      destruct Hin as [->|Hin].
      * exfalso. revert Hcode. unfold Papi.handle, Papi.library_call.
        pose proof (Hinv (Papi.papi w)) as Hne.
        destruct (Papi.PAPI_event_name_to_code name (Papi.papi w)) as [[retval c] p].
        simpl in Hne.
        destruct (Z.eqb_spec retval Papi.PAPI_OK) as [Heq|_]; [contradiction|discriminate].
      * destruct (IH w2 Hin) as (what & w' & -> & Hw'). exists what, w'.
        split; [reflexivity | congruence].
    + destruct (handle_tracing_error _ _ _ _ _ Hadd) as (what & ->).
      exists what, w2. split; [reflexivity|].
      rewrite (handle_this _ _ _ _ _ Hadd). exact Hw1.
  - destruct (handle_tracing_error _ _ _ _ _ Hcode) as (what & ->).
    exists what, w1. split; [reflexivity|]. exact (handle_this _ _ _ _ _ Hcode).
Qed.



(** *** Reading results *)

Lemma write_values_lookup (vals buf : list Z) (index : nat) (r : Z) :
  (index < length buf)%nat ->
  vals !! index = Some r ->
  Papi.write_values vals buf !! index = Some r.
Proof.
  intros Hlt Hr. unfold Papi.write_values.
  rewrite lookup_take_lt by exact Hlt. now apply lookup_app_l_Some.
Qed.

Lemma value_registered w name index r :
  Papi._disabled (Papi.this w) = false ->
  find_index name (Papi._counters (Papi.this w)) = Some index ->
  Papi._results (Papi.this w) !! index = Some r ->
  Papi.value name w = (Return r, w).
Proof.
  intros Hd Hi Hr. unfold Papi.value, bind, get. rewrite Hd, Hi.
  unfold Papi.result_t in *. now rewrite Hr.
Qed.


(** C7.  [start] on an instance that is not disabled and has no
    registered counter throws and changes nothing: no call reaches the
    library and no field of the tracer is written.  The hardware-counter
    backend throws a [std::runtime_error], the fallback backend a
    [TracingError], both with the message [No events set]. *)
Theorem start_without_counters :
  (forall w,
     Papi._disabled (Papi.this w) = false ->
     Papi._counters (Papi.this w) = [] ->
     Papi.start w = (Throw (std_runtime_error "No events set"), w)) /\
  (forall now t,
     Fallback._counters t = [] ->
     Fallback.start now t = (Throw (TracingError "No events set"), t)).
Proof.
  split.
  - intros w Hd Hc. unfold Papi.start, bind, get. now rewrite Hd, Hc.
  - intros now t Hc. unfold Fallback.start, bind, get. now rewrite Hc.
Qed.
End TracerFacts.

(** C10.  In the fallback backend [reset] writes zero to [_result] and to
    [_start] and leaves [_counters] as it is: after it, [value] of a
    registered name returns zero without throwing, and [start] opens a
    window on the same counters. *)
Theorem fallback_reset_keeps_counters (t : Fallback.FallbackTracer) (name : string) :
  In name (Fallback._counters t) ->
  let t' := Fallback.mkFallbackTracer (Fallback._counters t) 0 (Fallback.mkTimeval 0 0) in
  Fallback.reset t = (Cpp.Return tt, t') /\
  Fallback.value name t' = (Cpp.Return 0, t') /\
  forall now,
    Fallback.start now t'
    = (Cpp.Return tt, Fallback.mkFallbackTracer (Fallback._counters t) 0 now).
Proof.
  intros Hin t'. split; [reflexivity|]. split.
  - destruct (find_index_Some name _ Hin) as (index & Hi & _).
    unfold Fallback.value, Cpp.bind, Cpp.get. subst t'. simpl. now rewrite Hi.
  - intros now. unfold Fallback.start, Cpp.bind, Cpp.get. subst t'. simpl.
    destruct (Fallback._counters t); [destruct Hin | reflexivity].
Qed.

(** ** The no-op plan operation *)

Section NoOpFacts.
Import Cpp PlanOperations.
Context `{NoOp_h}.

(** C9.  [NoOp::parse] returns, for every payload, a new object that is
    default-constructed: it lives at an address that held no object, every
    other object is as it was, and the payload has no part in the result.
    [NoOp::executePlanOperation] returns without throwing and leaves every
    object as it was. *)
Theorem noop_parse_execute :
  (forall (data : Json_Value) (h : Heap),
     exists p,
       parse data h = (Return p, <[p := NoOp_default]> h) /\
       h !! p = None /\
       forall q, q <> p -> (<[p := NoOp_default]> h : Heap) !! q = h !! q) /\
  (forall (data1 data2 : Json_Value) (h : Heap), parse data1 h = parse data2 h) /\
  (forall (this : nat) (h : Heap), executePlanOperation this h = (Return tt, h)).
Proof.
  split; [|split].
  - intros data h. unfold Heap in *.
    exists (fresh (dom h)). split; [reflexivity|]. split.
    + apply not_elem_of_dom, is_fresh.
    + intros q Hq. now apply lookup_insert_ne.
  - reflexivity.
  - reflexivity.
Qed.
End NoOpFacts.

(** * Further properties *)

(** ** The equality predicate *)

Section MoreExpressionFacts.
Import Expressions.
Context {T : Type} `{EqDecision T} `{helper_types} `{pred_common}.
Implicit Types (e : EqualsExpression (T:=T)) (b : SimpleFieldExpression (T:=T)).
Implicit Types (l : list (c_atable_ptr_t (T:=T))) (tr : list (Call (T:=T))).

(** X1.  An evaluation, of whatever expression on whatever row, makes no
    dictionary lookup, and makes either no call at all or the single call
    [getValueId] for the field of the expression and that row. *)
Theorem eval_calls e row :
  lookups (calls (eval e row)) = [] /\
  (calls (eval e row) = [] \/
   calls (eval e row) = [CallGetValueId (field (base e)) row]).
Proof.
  unfold eval. destruct (value_exists e); [|now split; [|left]].
  destruct (table (base e)) as [tbl|]; [|now split; [|left]].
  simpl. destruct (getValueId tbl (field (base e)) row); now split; [|right].
Qed.

(** X2.  When the dictionary of the bound column is of another value type,
    [walk] does not return: after the call of [dictionaryAt] the cast gives
    an empty pointer, which is dereferenced, and no lookup is made. *)
Theorem walk_type_mismatch l e b tr0 tbl :
  SimpleFieldExpression_walk l (base e) = (Ok b, tr0) ->
  table b = Some tbl ->
  dictionaryAt tbl (field b) = Some DictionaryOfOtherType ->
  walk l e = (Fail NullPointer, tr0 ++ [CallDictionaryAt (field b)]) /\
  lookups (calls (walk l e)) = [].
Proof.
  intros Hb Ht Hd.
  assert (Hwalk : walk l e = (Fail NullPointer, tr0 ++ [CallDictionaryAt (field b)])).
  { unfold walk. rewrite Hb. simpl. rewrite Ht. simpl. rewrite Hd. reflexivity. }
  split; [exact Hwalk|]. rewrite Hwalk. unfold calls, lookups. simpl.
  rewrite List.filter_app. simpl. rewrite app_nil_r.
  pose proof (SimpleFieldExpression_walk_lookups l (base e)) as Hno.
  rewrite Hb in Hno. exact Hno.
Qed.

Lemma position_first (v : T) (vs : list T) (i j : nat) :
  NoDup vs -> position v vs = Some j -> vs !! i = Some v -> i = j.
Proof.
  intros Hnd Hp Hi. apply position_Some in Hp.
  exact (NoDup_lookup vs i j v Hnd Hi Hp).
Qed.

(** X3.  On a column whose dictionary holds no value twice, a walked
    predicate decides whether the value of the row is the literal: when the
    ValueId that the row stores is the position of the value [v], the
    evaluation returns true when [v] is the literal and false when it is
    not. *)
Theorem equals_decides_value l e e' tr tbl (d : BaseDictionary) row id (i : nat) (v : T) :
  walk l e = (Ok e', tr) ->
  table (base e') = Some tbl ->
  dictionaryAt tbl (field (base e')) = Some (DictionaryOf d) ->
  NoDup (dict_values d) ->
  Z.of_nat (length (dict_values d)) <= value_id_max ->
  getValueId tbl (field (base e')) row = Some id ->
  valueId id = Z.of_nat i ->
  dict_values d !! i = Some v ->
  outcome (eval e' row) = Ok (bool_decide (v = value e)).
Proof.
  intros Hwalk Htbl Hdict Hnd Hsize Hid Hi Hv.
  destruct (walk_Ok _ _ _ _ Hwalk) as (b & tbl' & d' & tr0 & Hb & Ht & Hd & -> & ->).
  simpl in Htbl, Hdict, Hid. rewrite Ht in Htbl. injection Htbl as ->.
  rewrite Hd in Hdict. injection Hdict as ->.
  unfold eval, outcome. simpl.
  unfold findValueIdForValue.
  destruct (position (value e) (dict_values d)) as [j|] eqn:Hp.
  - pose proof (position_Some _ _ _ Hp) as Hj.
    pose proof (lookup_lt_Some _ _ _ Hj) as Hlt.
    assert (Hsmall : to_value_id j = Z.of_nat j).
    { unfold to_value_id, value_id_max in *. rewrite Z.mod_small; lia. }
    rewrite Hsmall.
    destruct (Z.eqb_spec (Z.of_nat j) value_id_max) as [Heq|_]; [lia|].
    simpl. rewrite Ht. simpl. rewrite Hid. simpl. f_equal.
    unfold ValueId_eqb. simpl. rewrite Hi.
    destruct (decide (v = value e)) as [->|Hne].
    + rewrite (position_first _ _ i j Hnd Hp Hv), Z.eqb_refl.
      now rewrite bool_decide_eq_true_2.
    + rewrite bool_decide_eq_false_2 by exact Hne.
      apply Z.eqb_neq. intros Heq. apply Nat2Z.inj in Heq. subst j. congruence.
  - rewrite Z.eqb_refl. simpl. f_equal.
    rewrite bool_decide_eq_false_2; [reflexivity|].
    intros ->. apply position_None in Hp. apply Hp.
    apply list_elem_of_In. now apply list_elem_of_lookup_2 with i.
Qed.

(** X4.  The clone of a walked expression, walked against tables that hold
    the table of the original in the slot of a direct handle, is bound
    again: the walk returns after one dictionary lookup, of the literal,
    and the clone then evaluates on every row as the original does. *)
Theorem clone_rewalk_same_table l e0 e1 tr1 (u : Indeterminate) l' :
  walk l e0 = (Ok e1, tr1) ->
  l' !! direct_input = Some (table (base e1)) ->
  exists c' tr',
    walk l' (clone u e1) = (Ok c', tr') /\
    lookups tr' = [CallFindValueIdForValue (value e0)] /\
    forall row, eval c' row = eval e1 row.
Proof.
  intros Hwalk Hslot.
  destruct (walk_Ok _ _ _ _ Hwalk) as (b & tbl & d & tr0 & Hb & Ht & Hd & -> & ->).
  simpl in Hslot. rewrite Ht in Hslot.
  unfold walk, clone, EqualsExpression_by_table, SimpleFieldExpression_by_table,
    SimpleFieldExpression_walk. simpl.
  unfold c_atable_ptr_t in *. rewrite Hslot. simpl. rewrite Hd. simpl.
  eexists. eexists. split; [reflexivity|]. split; [reflexivity|].
  intros row. unfold eval. simpl. now rewrite Ht.
Qed.
End MoreExpressionFacts.

(** ** The tracer, hardware-counter backend *)

Section MoreTracerFacts.
Import Cpp.
Context `{Papi.Library}.

Lemma handle_library_ok {A} (f : Papi.state -> Z * A * Papi.state) activity w :
  (f (Papi.papi w)).1.1 = Papi.PAPI_OK ->
  Papi.handle (Papi.library_call f) activity w
  = (Return (f (Papi.papi w)).1.2, Papi.mkWorld (Papi.this w) (f (Papi.papi w)).2).
Proof.
  unfold Papi.handle, Papi.library_call.
  destruct (f (Papi.papi w)) as [[retval a] s]. simpl. intros ->.
  now rewrite Z.eqb_refl.
Qed.

Lemma handle_library_ok_unit (f : Papi.state -> Z * unit * Papi.state) activity w :
  (f (Papi.papi w)).1.1 = Papi.PAPI_OK ->
  Papi.handle (Papi.library_call f) activity w
  = (Return tt, Papi.mkWorld (Papi.this w) (f (Papi.papi w)).2).
Proof.
  intros Hok. rewrite handle_library_ok by exact Hok.
  now destruct (f (Papi.papi w)).1.2.
Qed.

Lemma handle_library_fail {A} (f : Papi.state -> Z * A * Papi.state) activity w :
  (f (Papi.papi w)).1.1 <> Papi.PAPI_OK ->
  Papi.handle (Papi.library_call f) activity w
  = (Throw (TracingError (activity +:+ " failed: "
                          +:+ Papi.PAPI_strerror (f (Papi.papi w)).1.1)),
     Papi.mkWorld (Papi.this w) (f (Papi.papi w)).2).
Proof.
  unfold Papi.handle, Papi.library_call.
  destruct (f (Papi.papi w)) as [[retval a] s]. simpl. intros Hne.
  destruct (Z.eqb_spec retval Papi.PAPI_OK) as [Heq|_]; [contradiction|reflexivity].
Qed.

(** The loop of [start] leaves the tracer as it is, however it ends. *)
Lemma add_events_this eventSet names w r w' :
  Papi.add_events eventSet names w = (r, w') -> Papi.this w' = Papi.this w.
Proof.
  revert w. induction names as [|n names IH]; intros w; simpl.
  - now intros [= _ <-].
  - unfold bind at 1.
    destruct (Papi.handle (Papi.library_call (Papi.PAPI_event_name_to_code n)) _ w)
      as [[code|e] w1] eqn:Hcode;
      pose proof (handle_this _ _ _ _ _ Hcode) as Hw1; [|now intros [= _ <-]].
    unfold bind at 1.
    destruct (Papi.handle (Papi.library_call (Papi.PAPI_add_event eventSet code)) _ w1)
      as [[[]|e] w2] eqn:Hadd;
      pose proof (handle_this _ _ _ _ _ Hadd) as Hw2; [|intros [= _ <-]; congruence].
    intros Hrest. apply IH in Hrest. congruence.
Qed.

Lemma add_events_attaches eventSet names names' w :
  Conditions.attaches names' ->
  (forall n, In n names -> In n names') ->
  exists w', Papi.add_events eventSet names w = (Return tt, w').
Proof.
  intros [Hcode Hadd]. revert w. induction names as [|n names IH]; intros w Hincl; simpl.
  - now eexists.
  - unfold bind at 1. rewrite handle_library_ok by (apply Hcode, Hincl; now left).
    unfold bind at 1. rewrite handle_library_ok_unit by apply Hadd.
    apply IH. intros m Hm. apply Hincl. now right.
Qed.

(** [start] on an instance that is not disabled and has counters: the
    loop, and after it the tracer marked as started and the two calls that
    reset and start the counters. *)
Lemma start_unfold w :
  Papi._disabled (Papi.this w) = false ->
  Papi._counters (Papi.this w) <> [] ->
  Papi.start w
  = match Papi.add_events (Papi._eventSet (Papi.this w)) (Papi._counters (Papi.this w)) w with
    | (Return _, wa) =>
        (Papi.handle (Papi.library_call (Papi.PAPI_reset (Papi._eventSet (Papi.this w))))
                     "Reset counter" ;;
         Papi.handle (Papi.library_call (Papi.PAPI_start (Papi._eventSet (Papi.this w))))
                     "Starting counter")%cpp
          (Papi.mkWorld (Conditions.started (Papi.this w)) (Papi.papi wa))
    | (Throw e, wa) => (Throw e, wa)
    end.
Proof.
  intros Hd Hc. unfold Papi.start, bind at 1, get. rewrite Hd.
  destruct (Papi._counters (Papi.this w)) as [|n names] eqn:Hcs; [contradiction|].
  unfold bind at 1.
  destruct (Papi.add_events _ (n :: names) w) as [[[]|e] wa] eqn:Hloop; [|reflexivity].
  apply add_events_this in Hloop.
  unfold bind, Papi.on_this, modify, Conditions.started. simpl.
  rewrite Hloop, Hcs. reflexivity.
Qed.


(** X6.  When the library attaches the registered counters but refuses to
    start them, [start] on an instance that is not disabled throws a
    tracing error and leaves the tracer marked as running, with one zero
    per counter: [_running] is set before the counters are reset and
    started. *)
Theorem start_failure_leaves_running w :
  Conditions.attaches (Papi._counters (Papi.this w)) ->
  (forall es s, (Papi.PAPI_start es s).1.1 <> Papi.PAPI_OK) ->
  Papi._disabled (Papi.this w) = false ->
  Papi._counters (Papi.this w) <> [] ->
  exists what w',
    Papi.start w = (Throw (tracing_error what), w') /\
    Papi.this w' = Conditions.started (Papi.this w) /\
    Papi._running (Papi.this w') = true.
Proof.
  intros Hattach Hrefuse Hd Hc.
  destruct (add_events_attaches (Papi._eventSet (Papi.this w)) _ _ w Hattach (fun _ Hn => Hn))
    as (wa & Hloop).
  rewrite (start_unfold w Hd Hc), Hloop. unfold bind.
  destruct (Z.eq_dec (Papi.PAPI_reset (Papi._eventSet (Papi.this w)) (Papi.papi wa)).1.1
              Papi.PAPI_OK) as [Hok|Hno].
  - rewrite handle_library_ok_unit by exact Hok.
    rewrite handle_library_fail by apply Hrefuse.
    eexists. eexists. split; [reflexivity|]. now split.
  - rewrite handle_library_fail by exact Hno.
    eexists. eexists. split; [reflexivity|]. now split.
Qed.

(** What a [stop] that reaches the library does to the tracer. *)
Lemma stop_enabled w :
  Papi._disabled (Papi.this w) = false ->
  Papi.stop w
  = let '(retval, vals, s) := Papi.PAPI_stop (Papi._eventSet (Papi.this w)) (Papi.papi w) in
    let t := Papi.set_results (Papi.write_values vals (Papi._results (Papi.this w)))
               (Papi.this w) in
    if retval =? Papi.PAPI_OK
    then (Return tt, Papi.mkWorld (Papi.set_running false t) s)
    else (Throw (TracingError ("Stopping Counter" +:+ " failed: "
                               +:+ Papi.PAPI_strerror retval)),
          Papi.mkWorld t s).
Proof.
  intros Hd. unfold Papi.stop, bind at 1, get. rewrite Hd.
  unfold bind, Papi.handle, Papi.PAPI_stop_into_results.
  destruct (Papi.PAPI_stop _ _) as [[retval vals] s].
  destruct (retval =? Papi.PAPI_OK); reflexivity.
Qed.

Lemma length_write_values (vals buf : list Z) :
  length (Papi.write_values vals buf) = length buf.
Proof.
  unfold Papi.write_values, Papi.result_t.
  rewrite length_take, length_app, length_drop. lia.
Qed.



Lemma start_Return w w1 :
  Papi._disabled (Papi.this w) = false ->
  Papi.start w = (Return tt, w1) ->
  Papi.this w1 = Conditions.started (Papi.this w).
Proof.
  intros Hd. destruct (Papi._counters (Papi.this w)) as [|n names] eqn:Hcs.
  { unfold Papi.start, bind, get. rewrite Hd, Hcs. discriminate. }
  rewrite (start_unfold w Hd) by (rewrite Hcs; discriminate).
  destruct (Papi.add_events _ _ w) as [[[]|e] wa]; [|discriminate].
  unfold bind at 1.
  destruct (Papi.handle (Papi.library_call (Papi.PAPI_reset _)) _ _) as [[[]|e] w2] eqn:H2;
    [|discriminate].
  intros H3. apply handle_this in H2. apply handle_this in H3. simpl in H2. congruence.
Qed.

Lemma find_index_first {A} `{EqDecision A} (v : A) (pre post : list A) :
  ~ In v pre -> find_index v (pre ++ v :: post) = Some (length pre).
Proof.
  induction pre as [|x pre IH]; simpl; intros Hnot.
  - destruct (decide (v = v)); [reflexivity|contradiction].
  - destruct (decide (x = v)) as [->|_]; [exfalso; apply Hnot; now left|].
    rewrite IH by tauto. reflexivity.
Qed.

(** X8.  A counter registered after [start] has no result: when [start]
    has returned on an instance that is not disabled, and a name that was
    not registered is then added, [value] of that name throws
    [std::out_of_range]. *)
Theorem late_registration w w1 name :
  Papi._disabled (Papi.this w) = false ->
  Papi.start w = (Return tt, w1) ->
  name <> "NO_PAPI" ->
  ~ In name (Papi._counters (Papi.this w)) ->
  Papi.value name (Papi.addEvent name w1).2
  = (Throw std_out_of_range, (Papi.addEvent name w1).2).
Proof.
  intros Hd Hstart Hne Hnot.
  pose proof (start_Return w w1 Hd Hstart) as Hw1.
  rewrite (addEvent_records name w1 Hne). simpl.
  unfold Papi.value, bind, get. simpl. rewrite Hw1. simpl. rewrite Hd.
  rewrite (find_index_first name _ [] Hnot).
  rewrite (proj2 (lookup_ge_None _ _)) by (rewrite length_replicate; lia).
  reflexivity.
Qed.

(** X10.  [value] reads the result at the position of the first
    registration of the name: when the name is registered again later, the
    result at the later position is never returned. *)
Theorem value_first_registration w name pre post r :
  Papi._disabled (Papi.this w) = false ->
  Papi._counters (Papi.this w) = pre ++ name :: post ->
  ~ In name pre ->
  Papi._results (Papi.this w) !! length pre = Some r ->
  Papi.value name w = (Return r, w).
Proof.
  intros Hd Hc Hnot Hr.
  apply value_registered with (length pre); [exact Hd| |exact Hr].
  rewrite Hc. now apply find_index_first.
Qed.

(** *** What no sequence of calls changes *)

Lemma start_frame w r w' :
  Papi.start w = (r, w') ->
  Papi._counters (Papi.this w') = Papi._counters (Papi.this w) /\
  Papi._eventSet (Papi.this w') = Papi._eventSet (Papi.this w) /\
  Papi._disabled (Papi.this w') = Papi._disabled (Papi.this w).
Proof.
  destruct (Papi._disabled (Papi.this w)) eqn:Hd.
  { rewrite (start_disabled w Hd). intros [= _ <-]. now rewrite Hd. }
  destruct (Papi._counters (Papi.this w)) as [|n names] eqn:Hcs.
  { unfold Papi.start, bind, get. rewrite Hd, Hcs. intros [= _ <-]. now rewrite Hd, Hcs. }
  rewrite (start_unfold w Hd) by (rewrite Hcs; discriminate).
  destruct (Papi.add_events _ _ w) as [[[]|e] wa] eqn:Hloop.
  - unfold bind at 1.
    destruct (Papi.handle (Papi.library_call (Papi.PAPI_reset _)) _ _) as [[[]|e] w2] eqn:H2.
    + intros H3. apply handle_this in H2. apply handle_this in H3.
      rewrite H3, H2. simpl. now rewrite Hd, Hcs.
    + intros [= _ <-]. apply handle_this in H2. rewrite H2. simpl. now rewrite Hd, Hcs.
  - intros [= _ <-]. apply add_events_this in Hloop. rewrite Hloop. now rewrite Hd, Hcs.
Qed.

Lemma stop_frame w r w' :
  Papi.stop w = (r, w') ->
  Papi._counters (Papi.this w') = Papi._counters (Papi.this w) /\
  Papi._eventSet (Papi.this w') = Papi._eventSet (Papi.this w) /\
  Papi._disabled (Papi.this w') = Papi._disabled (Papi.this w).
Proof.
  destruct (Papi._disabled (Papi.this w)) eqn:Hd.
  { rewrite (stop_disabled w Hd). intros [= _ <-]. now rewrite Hd. }
  rewrite (stop_enabled w Hd).
  destruct (Papi.PAPI_stop _ _) as [[retval vals] s].
  destruct (retval =? Papi.PAPI_OK); intros [= _ <-]; simpl; now rewrite Hd.
Qed.

Lemma reset_frame w r w' :
  Papi.reset w = (r, w') ->
  Papi._counters (Papi.this w') = Papi._counters (Papi.this w) /\
  Papi._eventSet (Papi.this w') = Papi._eventSet (Papi.this w) /\
  Papi._disabled (Papi.this w') = Papi._disabled (Papi.this w).
Proof.
  destruct (Papi._disabled (Papi.this w)) eqn:Hd.
  { rewrite (reset_disabled w Hd). intros [= _ <-]. now rewrite Hd. }
  unfold Papi.reset, bind at 1, get. rewrite Hd. unfold bind at 1.
  destruct (Papi.stop w) as [[[]|e] w1] eqn:Hstop;
    destruct (stop_frame _ _ _ Hstop) as (Hc & He & Hdis); rewrite Hd in Hdis.
  - unfold bind at 1, Papi.on_this, modify. intros Hlast.
    apply handle_this in Hlast. rewrite Hlast. simpl. now rewrite Hc, He, Hdis.
  - intros [= _ <-]. now rewrite Hc, He, Hdis.
Qed.

Lemma value_frame name w r w' : Papi.value name w = (r, w') -> w' = w.
Proof.
  unfold Papi.value, bind, get.
  destruct (Papi._disabled (Papi.this w)); [now intros [= _ <-]|].
  destruct (find_index name _); [|now intros [= _ <-]].
  destruct (_ !! _); now intros [= _ <-].
Qed.

Lemma run_op_frame o w r w' :
  Papi.run_op o w = (r, w') ->
  (exists added,
     Papi._counters (Papi.this w') = Papi._counters (Papi.this w) ++ added) /\
  Papi._eventSet (Papi.this w') = Papi._eventSet (Papi.this w) /\
  (o <> Papi.OpAddEvent "NO_PAPI" ->
   Papi._disabled (Papi.this w') = Papi._disabled (Papi.this w)).
Proof.
  destruct o as [n| | | |n]; simpl; unfold bind.
  - unfold Papi.addEvent. destruct (String.eqb_spec n "NO_PAPI") as [->|Hne].
    + intros [= _ <-]. simpl. split; [exists []; now rewrite app_nil_r|].
      split; [reflexivity|]. intros Hn. now contradiction Hn.
    + intros [= _ <-]. simpl. split; [now exists [n]|]. now split.
  - destruct (Papi.start w) as [[[]|e] w1] eqn:Hop; intros [= _ <-];
      destruct (start_frame _ _ _ Hop) as (Hc & He & Hdis);
      (split; [exists []; now rewrite app_nil_r|]); now split.
  - destruct (Papi.stop w) as [[[]|e] w1] eqn:Hop; intros [= _ <-];
      destruct (stop_frame _ _ _ Hop) as (Hc & He & Hdis);
      (split; [exists []; now rewrite app_nil_r|]); now split.
  - destruct (Papi.reset w) as [[[]|e] w1] eqn:Hop; intros [= _ <-];
      destruct (reset_frame _ _ _ Hop) as (Hc & He & Hdis);
      (split; [exists []; now rewrite app_nil_r|]); now split.
  - destruct (Papi.value n w) as [[v|e] w1] eqn:Hop; intros [= _ <-];
      apply value_frame in Hop; subst w1;
      (split; [exists []; now rewrite app_nil_r|]); now split.
Qed.

(** X9.  Whatever member functions are called, and whether or not one of
    them throws, the registered counters stay registered, in their order
    (counters are only appended), the event set stays the same, and an
    instance stays disabled or not disabled as it was unless
    [addEvent("NO_PAPI")] is among the calls. *)
Theorem calls_keep_registration os w r w' :
  Papi.run os w = (r, w') ->
  (exists added,
     Papi._counters (Papi.this w') = Papi._counters (Papi.this w) ++ added) /\
  Papi._eventSet (Papi.this w') = Papi._eventSet (Papi.this w) /\
  (Conditions.without_sentinel os ->
   Papi._disabled (Papi.this w') = Papi._disabled (Papi.this w)).
Proof.
  revert w. induction os as [|o os IH]; intros w; simpl.
  - intros [= _ <-]. split; [exists []; now rewrite app_nil_r|]. now split.
  - unfold bind at 1.
    destruct (Papi.run_op o w) as [[v|e] w1] eqn:Hop;
      destruct (run_op_frame _ _ _ _ Hop) as ((a1 & Hc1) & He1 & Hd1).
    + intros Hrest. destruct (IH _ Hrest) as ((a2 & Hc2) & He2 & Hd2).
      split; [exists (a1 ++ a2); now rewrite Hc2, Hc1, app_assoc|].
      split; [congruence|].
      intros Hno. unfold Conditions.without_sentinel in *. simpl in Hno.
      rewrite Hd2 by tauto. apply Hd1. intros ->. tauto.
    + intros [= _ <-]. split; [now exists a1|]. split; [exact He1|].
      intros Hno. unfold Conditions.without_sentinel in *. simpl in Hno.
      apply Hd1. intros ->. tauto.
Qed.
End MoreTracerFacts.

(** ** The tracer, fallback backend *)

Section MoreFallbackFacts.
Import Cpp.

Lemma wrap64_small (z : Z) :
  - 9223372036854775808 <= z < 9223372036854775808 -> Fallback.wrap64 z = z.
Proof.
  intros Hz. unfold Fallback.wrap64.
  change (2 ^ 63) with 9223372036854775808.
  change (2 ^ 64) with 18446744073709551616.
  rewrite Z.mod_small; lia.
Qed.

(** X12.  A window opened by [start] at one time and closed by [stop] at
    another gives, for every registered name, the microseconds between
    the two times; times are as [gettimeofday] reports them. *)
Theorem elapsed_microseconds t t0 t1 name :
  Conditions.normalized t0 ->
  Conditions.normalized t1 ->
  In name (Fallback._counters t) ->
  exists ta tb,
    Fallback.start t0 t = (Return tt, ta) /\
    Fallback.stop t1 ta = (Return tt, tb) /\
    Fallback.value name tb
    = (Return (Conditions.microseconds t1 - Conditions.microseconds t0), tb).
Proof.
  intros [Hu0 Hs0] [Hu1 Hs1] Hin.
  destruct (find_index_Some name _ Hin) as (index & Hi & _).
  change (2 ^ 40) with 1099511627776 in *.
  exists (Fallback.mkFallbackTracer (Fallback._counters t) 0 t0).
  eexists. split.
  { clear Hi. unfold Fallback.start, bind, get.
    destruct (Fallback._counters t) eqn:Hcs; [destruct Hin|].
    unfold modify. simpl. now rewrite Hcs. }
  split; [reflexivity|].
  unfold Fallback.value, bind, get. simpl. rewrite Hi.
  unfold Conditions.microseconds, ret.
  rewrite (wrap64_small (Fallback.tv_sec t1 - Fallback.tv_sec t0)) by lia.
  rewrite (wrap64_small (Fallback.tv_usec t1 - Fallback.tv_usec t0)) by lia.
  rewrite (wrap64_small ((Fallback.tv_sec t1 - Fallback.tv_sec t0) * 1000000)) by lia.
  rewrite wrap64_small by lia. repeat f_equal; lia.
Qed.

(** X13.  All registered names read the same result: [value] of one
    registered name is [value] of any other. *)
Theorem registered_names_agree t n1 n2 :
  In n1 (Fallback._counters t) ->
  In n2 (Fallback._counters t) ->
  Fallback.value n1 t = Fallback.value n2 t.
Proof.
  intros H1 H2.
  destruct (find_index_Some n1 _ H1) as (i1 & Hi1 & _).
  destruct (find_index_Some n2 _ H2) as (i2 & Hi2 & _).
  unfold Fallback.value, bind, get. now rewrite Hi1, Hi2.
Qed.

(** X14.  Once a counter is registered, it stays registered whatever
    member functions are called: the counters are only appended to, [value]
    of the name returns the stored result afterwards, and the only call
    that can throw is [value] of a name that is not registered. *)
Theorem registration_is_permanent os t r t' name :
  In name (Fallback._counters t) ->
  FallbackCalls.run os t = (r, t') ->
  (exists added, Fallback._counters t' = Fallback._counters t ++ added) /\
  Fallback.value name t' = (Return (Fallback._result t'), t') /\
  (r = Return tt \/
   exists n,
     In (FallbackCalls.OpValue n) os /\
     ~ In n (Fallback._counters t') /\
     r = Throw (TracingError ("Trying to access unregistered event '" +:+ n +:+ "' "
                +:+ "Available: " +:+ joinString (Fallback._counters t') " "))).
Proof.
  revert t. induction os as [|o os IH]; intros t Hin; simpl.
  - intros [= <- <-]. split; [exists []; now rewrite app_nil_r|]. split; [|now left].
    destruct (find_index_Some name _ Hin) as (i & Hi & _).
    unfold Fallback.value, bind, get. now rewrite Hi.
  - assert (Hstep : forall t1,
              (exists a1, Fallback._counters t1 = Fallback._counters t ++ a1) ->
              FallbackCalls.run os t1 = (r, t') ->
              (exists added, Fallback._counters t' = Fallback._counters t ++ added) /\
              Fallback.value name t' = (Return (Fallback._result t'), t') /\
              (r = Return tt \/
               exists n,
                 (o = FallbackCalls.OpValue n \/ In (FallbackCalls.OpValue n) os) /\
                 ~ In n (Fallback._counters t') /\
                 r = Throw (TracingError ("Trying to access unregistered event '" +:+ n +:+ "' "
                            +:+ "Available: " +:+ joinString (Fallback._counters t') " ")))).
    { intros t1 (a1 & Hc1) Hrest.
      assert (Hin1 : In name (Fallback._counters t1)).
      { rewrite Hc1. apply in_or_app. now left. }
      destruct (IH t1 Hin1 Hrest) as ((a2 & Hc2) & Hv & Hr).
      split; [exists (a1 ++ a2); now rewrite Hc2, Hc1, app_assoc|].
      split; [exact Hv|].
      destruct Hr as [->|(n & Hn & Hnot & ->)]; [now left|].
      right. exists n. split; [now right|]. now split. }
    unfold bind at 1.
    destruct o as [n|now|now| |n]; unfold FallbackCalls.run_op, bind at 1.
    + unfold Fallback.addEvent, modify, ret. apply Hstep. simpl. now exists [n].
    + unfold Fallback.start, bind at 1, get.
      destruct (Fallback._counters t) as [|c cs] eqn:Hcs; [destruct Hin|].
      unfold bind, modify, ret. simpl. intros Hrest.
      apply (Hstep (Fallback.mkFallbackTracer (Fallback._counters t) 0 now)); [|exact Hrest].
      exists []. simpl. now rewrite app_nil_r.
    + unfold Fallback.stop, modify, ret. apply Hstep. exists []. simpl. now rewrite app_nil_r.
    + unfold Fallback.reset, bind, modify, ret. simpl.
      apply Hstep. exists []. simpl. now rewrite app_nil_r.
    + unfold Fallback.value, bind, get.
      destruct (find_index n (Fallback._counters t)) as [i|] eqn:Hi.
      * unfold ret. apply Hstep. exists []. now rewrite app_nil_r.
      * unfold throw. intros [= <- <-]. split; [exists []; now rewrite app_nil_r|]. split.
        { destruct (find_index_Some name _ Hin) as (j & Hj & _).
          unfold Fallback.value, bind, get. now rewrite Hj. }
        right. exists n. split; [now left|]. split; [|reflexivity].
        now apply find_index_None.
Qed.
End MoreFallbackFacts.

(** ** The no-op plan operation *)

Section MoreNoOpFacts.
Import Cpp PlanOperations.
Context `{NoOp_h}.

(** X15.  Two calls of [NoOp::parse], on whatever payloads, return two
    different objects, both default-constructed, and executing one of them
    leaves both as they are. *)
Theorem parse_twice (data1 data2 : Json_Value) (h : Heap) :
  exists p1 p2 h2,
    (let* p1 := parse data1 in let* p2 := parse data2 in ret (p1, p2))%cpp h
    = (Return (p1, p2), h2) /\
    p1 <> p2 /\
    (h2 : gmap nat NoOp) !! p1 = Some NoOp_default /\
    (h2 : gmap nat NoOp) !! p2 = Some NoOp_default /\
    executePlanOperation p1 h2 = (Return tt, h2).
Proof.
  unfold Heap in *.
  set (p1 := fresh (dom h)).
  set (h1 := <[p1 := NoOp_default]> h).
  set (p2 := fresh (dom h1)).
  assert (Hne : p1 <> p2).
  { intros Heq. pose proof (is_fresh (dom h1)) as Hfresh. fold p2 in Hfresh.
    apply Hfresh. rewrite <- Heq. unfold h1. rewrite dom_insert_L. set_solver. }
  exists p1, p2, (<[p2 := NoOp_default]> h1).
  split; [reflexivity|]. split; [exact Hne|]. split.
  - rewrite lookup_insert_ne by congruence. unfold h1. apply lookup_insert_eq.
  - split; [apply lookup_insert_eq | reflexivity].
Qed.
End MoreNoOpFacts.

(** ** Construction and destruction of the hardware-counter tracer *)

Section LifetimeFacts.
Import Cpp PapiLifetime.
Context `{Library}.

Lemma initialize_initialized p r p' :
  initialize p = (r, p') ->
  (initialized p = true -> p' = p /\ r = Return tt) /\
  (r = Return tt -> initialized p' = true) /\
  (forall e, r = Throw e ->
     e = TracingError "PAPI could not be initialized" /\ initialized p' = false).
Proof.
  unfold initialize. destruct (initialized p) eqn:Hinit; simpl.
  - intros [= <- <-]. split; [now split|]. split; [now intros _|].
    intros e He. discriminate He.
  - destruct (PAPI_library_init _ _) as [[retval []] s].
    destruct (negb (retval =? PAPI_VER_CURRENT)); intros [= <- <-]; simpl.
    + split; [discriminate|]. split; [discriminate|]. now intros e [= <-].
    + split; [discriminate|]. split; [reflexivity|]. intros e He. discriminate He.
Qed.

Lemma PapiTracer_new_initialized p c p' :
  PapiTracer_new p = (c, p') ->
  (initialized p = true -> initialized p' = true) /\
  (forall t, c = Done (Return t) ->
     initialized p' = true /\
     Papi._disabled t = false /\ Papi._running t = false /\
     Papi._counters t = [] /\ Papi._results t = []) /\
  (initialized p = true -> c <> Done (Throw (TracingError "PAPI could not be initialized"))).
Proof.
  unfold PapiTracer_new.
  destruct (initialize p) as [[[]|e] p1] eqn:Hinit;
    destruct (initialize_initialized _ _ _ Hinit) as (Hkeep & Hret & Hthrow).
  - specialize (Hret eq_refl).
    destruct (PAPI_thread_init _) as [[r1 []] s1].
    destruct (negb (r1 =? Papi.PAPI_OK)).
    + intros [= <- <-]. simpl. split; [auto|]. split; [discriminate|].
      intros _ Heq. injection Heq as Heq. vm_compute in Heq. discriminate Heq.
    + destruct (PAPI_create_eventset _ _) as [[retval eventSet] s2].
      destruct (negb (retval =? Papi.PAPI_OK)); intros [= <- <-]; simpl.
      * split; [auto|]. split; discriminate.
      * split; [auto|]. split; [|discriminate].
        intros t [= <-]. now repeat split.
  - intros [= <- <-]. destruct (Hthrow e eq_refl) as [-> Hfalse].
    split; [|split].
    + intros Htrue. destruct (Hkeep Htrue) as [_ Hr]. discriminate Hr.
    + discriminate.
    + intros Htrue. destruct (Hkeep Htrue) as [_ Hr]. discriminate Hr.
Qed.

Lemma constructions_initialized n p :
  initialized p = true -> initialized (constructions n p) = true.
Proof.
  revert p. induction n as [|n IH]; intros p Hinit; simpl; [exact Hinit|].
  destruct (PapiTracer_new p) as [[r|status] p'] eqn:Hnew;
    destruct (PapiTracer_new_initialized _ _ _ Hnew) as (Hkeep & _); auto.
Qed.


End LifetimeFacts.

(** ** The properties on the concrete collaborators *)

Import Expressions Examples.

Lemma equals_absent_literal_witness :
  ~ In 25 (dict_values prices) /\
  forall row, eval (walked [Some orders] (price_is 25)) row = (Ok false, []).
Proof.
  assert (Habsent : ~ In 25 (dict_values prices)).
  { simpl. intros [Heq|[Heq|[Heq|[]]]]; discriminate Heq. }
  split; [exact Habsent|].
  exact (proj1 (equals_absent_literal [Some orders] (price_is 25)
                  (walked [Some orders] (price_is 25))
                  (calls (walk [Some orders] (price_is 25))) orders prices
                  eq_refl eq_refl eq_refl Habsent)).
Defined.

Lemma equals_present_literal_witness :
  In 20 (dict_values prices) /\
  outcome (eval (walked [Some orders] (price_is 20)) 2) = Ok true /\
  outcome (eval (walked [Some orders] (price_is 20)) 0) = Ok false.
Proof.
  assert (Hpresent : In 20 (dict_values prices)) by (simpl; tauto).
  assert (Hsize : Z.of_nat (length (dict_values prices)) <= value_id_max) by (now vm_compute).
  destruct (equals_present_literal [Some orders] (price_is 20)
              (walked [Some orders] (price_is 20))
              (calls (walk [Some orders] (price_is 20))) orders prices
              eq_refl eq_refl eq_refl Hpresent Hsize) as [_ Hrows].
  split; [exact Hpresent|]. split.
  - apply (Hrows 2%nat (mkValueId 1)); reflexivity.
  - apply (Hrows 0%nat (mkValueId 0)); [reflexivity|].
    intros Heq. vm_compute in Heq. discriminate Heq.
Defined.








Lemma start_without_counters_witness :
  Papi.start new_world = (Cpp.Throw (Cpp.std_runtime_error "No events set"), new_world) /\
  Fallback.start (Fallback.mkTimeval 1 2) new_fallback
  = (Cpp.Throw (Cpp.TracingError "No events set"), new_fallback).
Proof.
  destruct start_without_counters as [Hpapi Hfallback].
  split.
  - apply Hpapi; reflexivity.
  - apply Hfallback. reflexivity.
Defined.

Lemma fallback_reset_keeps_counters_witness :
  In "X" ["X"; "Y"] /\
  Fallback.value "X" (Fallback.reset (Fallback.mkFallbackTracer ["X"; "Y"] 99 (Fallback.mkTimeval 3 4))).2
  = (Cpp.Return 0, Fallback.mkFallbackTracer ["X"; "Y"] 0 (Fallback.mkTimeval 0 0)).
Proof.
  assert (Hin : In "X" ["X"; "Y"]) by now left.
  split; [exact Hin|].
  exact (proj1 (proj2 (fallback_reset_keeps_counters
                         (Fallback.mkFallbackTracer ["X"; "Y"] 99 (Fallback.mkTimeval 3 4))
                         "X" Hin))).
Defined.


(** ** The further properties on the concrete collaborators *)

Import MoreExamples.

Lemma walk_type_mismatch_witness :
  walk [Some names_table] (EqualsExpression_by_index (garbage true) 0 0%nat 20)
  = (Fail NullPointer, [CallDictionaryAt 0%nat]).
Proof.
  exact (proj1 (walk_type_mismatch [Some names_table]
                  (EqualsExpression_by_index (garbage true) 0 0%nat 20)
                  {| table := Some names_table; field := 0%nat;
                     field_name := None; input := 0%nat |}
                  [] names_table eq_refl eq_refl eq_refl)).
Defined.

Lemma equals_decides_value_witness :
  NoDup (dict_values prices) /\
  outcome (eval (walked [Some orders] (price_is 20)) 2) = Ok (bool_decide (20 = 20)) /\
  outcome (eval (walked [Some orders] (price_is 20)) 1) = Ok (bool_decide (30 = 20)).
Proof.
  assert (Hnd : NoDup (dict_values prices)).
  { apply (bool_decide_unpack (NoDup (dict_values prices))). vm_compute. exact I. }
  assert (Hsize : Z.of_nat (length (dict_values prices)) <= value_id_max) by (now vm_compute).
  split; [exact Hnd|]. split.
  - exact (equals_decides_value [Some orders] (price_is 20)
             (walked [Some orders] (price_is 20))
             (calls (walk [Some orders] (price_is 20))) orders prices
             2%nat (mkValueId 1) 1%nat 20
             eq_refl eq_refl eq_refl Hnd Hsize eq_refl eq_refl eq_refl).
  - exact (equals_decides_value [Some orders] (price_is 20)
             (walked [Some orders] (price_is 20))
             (calls (walk [Some orders] (price_is 20))) orders prices
             1%nat (mkValueId 2) 2%nat 30
             eq_refl eq_refl eq_refl Hnd Hsize eq_refl eq_refl eq_refl).
Defined.

Lemma clone_rewalk_same_table_witness :
  exists c' tr',
    walk [Some orders] (clone (garbage false) (walked [Some orders] (price_is 20)))
    = (Ok c', tr') /\
    lookups tr' = [CallFindValueIdForValue 20] /\
    forall row, eval c' row = eval (walked [Some orders] (price_is 20)) row.
Proof.
  exact (clone_rewalk_same_table [Some orders] (price_is 20)
           (walked [Some orders] (price_is 20))
           (calls (walk [Some orders] (price_is 20))) (garbage false) [Some orders]
           eq_refl eq_refl).
Defined.

Lemma one_counter_accepts : Conditions.accepts ["PAPI_TOT_INS"].
Proof.
  repeat split; try reflexivity.
  intros n s [<-|[]]. reflexivity.
Defined.


Lemma refusing_attaches : Conditions.attaches (H:=refusing) ["PAPI_TOT_INS"].
Proof. split; reflexivity. Defined.

Lemma start_failure_leaves_running_witness :
  exists what w',
    Papi.start refused_idle = (Cpp.Throw (Cpp.tracing_error what), w') /\
    Papi._running (Papi.this w') = true.
Proof.
  assert (Hrefuse : forall es s,
            (Papi.PAPI_start (Library:=refusing) es s).1.1 <> Papi.PAPI_OK).
  { intros es s. simpl. discriminate. }
  assert (Hc : Papi._counters (Papi.this refused_idle) <> []) by discriminate.
  destruct (start_failure_leaves_running refused_idle refusing_attaches Hrefuse eq_refl Hc)
    as (what & w' & Hstart & _ & Hrun).
  now exists what, w'.
Defined.



Lemma late_registration_witness :
  Papi.value "LATE" (Papi.addEvent "LATE" (Papi.start with_counter).2).2
  = (Cpp.Throw Cpp.std_out_of_range, (Papi.addEvent "LATE" (Papi.start with_counter).2).2).
Proof.
  assert (Hne : "LATE" <> "NO_PAPI") by discriminate.
  assert (Hnot : ~ In "LATE" (Papi._counters (Papi.this with_counter))).
  { simpl. intros [Heq|[]]. discriminate Heq. }
  exact (late_registration with_counter (Papi.start with_counter).2 "LATE"
           eq_refl eq_refl Hne Hnot).
Defined.

Lemma calls_keep_registration_witness :
  exists added,
    Papi._counters
      (Papi.this (Papi.run [Papi.OpAddEvent "A"; Papi.OpStart; Papi.OpReset] with_counter).2)
    = ["PAPI_TOT_INS"] ++ added.
Proof.
  exact (proj1 (calls_keep_registration
                  [Papi.OpAddEvent "A"; Papi.OpStart; Papi.OpReset] with_counter
                  (Papi.run [Papi.OpAddEvent "A"; Papi.OpStart; Papi.OpReset] with_counter).1
                  (Papi.run [Papi.OpAddEvent "A"; Papi.OpStart; Papi.OpReset] with_counter).2
                  eq_refl)).
Defined.

Lemma value_first_registration_witness :
  Papi.value "X" registered_twice = (Cpp.Return 1, registered_twice).
Proof.
  exact (value_first_registration registered_twice "X" [] ["Y"; "X"] 1
           eq_refl eq_refl (fun Hin => Hin) eq_refl).
Defined.

Lemma elapsed_microseconds_witness :
  exists ta tb,
    Fallback.start (Fallback.mkTimeval 10 999000)
      (Fallback.mkFallbackTracer ["X"] 5 (Fallback.mkTimeval 0 0)) = (Cpp.Return tt, ta) /\
    Fallback.stop (Fallback.mkTimeval 12 1000) ta = (Cpp.Return tt, tb) /\
    Fallback.value "X" tb = (Cpp.Return 1002000, tb).
Proof.
  apply (elapsed_microseconds (Fallback.mkFallbackTracer ["X"] 5 (Fallback.mkTimeval 0 0))
           (Fallback.mkTimeval 10 999000) (Fallback.mkTimeval 12 1000) "X").
  - unfold Conditions.normalized. simpl. lia.
  - unfold Conditions.normalized. simpl. lia.
  - now left.
Defined.

Lemma registered_names_agree_witness :
  Fallback.value "X" (Fallback.mkFallbackTracer ["X"; "Y"] 7 (Fallback.mkTimeval 0 0))
  = Fallback.value "Y" (Fallback.mkFallbackTracer ["X"; "Y"] 7 (Fallback.mkTimeval 0 0)).
Proof.
  apply registered_names_agree; simpl; tauto.
Defined.

Lemma registration_is_permanent_witness :
  exists n,
    In (FallbackCalls.OpValue n)
      [FallbackCalls.OpReset; FallbackCalls.OpValue "Z"; FallbackCalls.OpAddEvent "Z"] /\
    (FallbackCalls.run
       [FallbackCalls.OpReset; FallbackCalls.OpValue "Z"; FallbackCalls.OpAddEvent "Z"]
       (Fallback.mkFallbackTracer ["X"] 7 (Fallback.mkTimeval 0 0))).1
    = Cpp.Throw (Cpp.TracingError ("Trying to access unregistered event '" +:+ n +:+ "' "
                 +:+ "Available: " +:+ Cpp.joinString ["X"] " ")).
Proof.
  destruct (registration_is_permanent
              [FallbackCalls.OpReset; FallbackCalls.OpValue "Z"; FallbackCalls.OpAddEvent "Z"]
              (Fallback.mkFallbackTracer ["X"] 7 (Fallback.mkTimeval 0 0))
              _ _ "X" (or_introl eq_refl) eq_refl)
    as (_ & _ & [Hret|(n & Hn & _ & Hthrow)]).
  - discriminate Hret.
  - exists n. split; [exact Hn | exact Hthrow].
Defined.


